(** * AIKyudo: pose geometry, form scoring and landmark replay

    A shallow embedding of the algorithmic core of the repository:

    - [Geometry]  : [calcAngle] and [calcKyudoAngles] of
                    [src/components/PoseOverlay.tsx];
    - [Scorer]    : the statistics helpers and [evaluateForm] of
                    [src/components/VideoAnalyzer.tsx];
    - [Replay]    : the replay controls of the [VideoAnalyzer] component
                    ([startReplay] and its animation-frame [loop],
                    [stopReplay], [toggleReplayPause], [handleSeek] and the
                    speed buttons).

    Numbers.  JavaScript numbers are IEEE doubles; rounding error is not
    modelled.  The geometry calls [Math.acos] and [Math.atan2], so it is
    stated over the real numbers.  The scorer and the replay loop only
    use field operations, comparisons and [Math.sqrt]; they are stated over
    the rationals so that every definition runs, with [Math.sqrt] taken as a
    parameter of the scorer. *)

From Stdlib Require Import List Bool Arith ZArith QArith Qround Qabs Qminmax.
From Stdlib Require Import Reals Lra Lia.
From Stdlib Require Lqa.
From Stdlib Require Import Sorted.
Import ListNotations.

(* ================================================================== *)
(** * Definitions *)
(* ================================================================== *)

(** ** PoseOverlay.tsx: joint angles *)

Module Geometry.
Local Open Scope R_scope.

(** A MediaPipe landmark.  Only the planar coordinates are read by the
    angle computations. *)
Record Landmark : Type := mkLandmark { x : R; y : R }.

(** [landmarks: any[]]: an index holds a landmark or nothing; reading past
    the end of a JavaScript array gives [undefined] as well. *)
Definition Landmarks : Type := list (option Landmark).

Definition lm (landmarks : Landmarks) (i : nat) : option Landmark :=
  match nth_error landmarks i with
  | Some (Some p) => Some p
  | _ => None
  end.

(** [Math.atan2(y, x)] on real arguments: the angle of the point [(x, y)],
    in the interval (-PI, PI]. *)
Definition Math_atan2 (py px : R) : R :=
  if Rlt_dec 0 px then atan (py / px)
  else if Rlt_dec px 0 then
    (if Rle_dec 0 py then atan (py / px) + PI else atan (py / px) - PI)
  else if Rlt_dec 0 py then PI / 2
  else if Rlt_dec py 0 then - (PI / 2)
  else 0.

(** [calcAngle(a, b, c)]: the angle at the vertex [b], in degrees. *)
Definition calcAngle (a b c : Landmark) : R :=
  let abx := x a - x b in
  let aby := y a - y b in
  let cbx := x c - x b in
  let cby := y c - y b in
  let dot := abx * cbx + aby * cby in
  let mag := sqrt (abx ^ 2 + aby ^ 2) * sqrt (cbx ^ 2 + cby ^ 2) in
  if Req_dec_T mag 0 then 0
  else acos (Rmax (-1) (Rmin 1 (dot / mag))) * (180 / PI).

(** [interface AngleData]: [null] is [None]. *)
Record AngleData : Type := mkAngleData {
  leftElbow       : option R;
  rightElbow      : option R;
  leftShoulder    : option R;
  rightShoulder   : option R;
  hipTilt         : option R;
  spineTilt       : option R;
  monomiAngle     : option R;
  kuchiwariOffset : option R
}.

(** The three-landmark guards [p && q && r ? calcAngle(p, q, r) : null]. *)
Definition angle3 (p q r : option Landmark) : option R :=
  match p, q, r with
  | Some a, Some b, Some c => Some (calcAngle a b c)
  | _, _, _ => None
  end.

(** The two conditional subtractions that follow the conversion of the
    head-rotation difference to degrees. *)
Definition normalize180 (diff : R) : R :=
  let d1 := if Rlt_dec 180 diff then diff - 360 else diff in
  if Rlt_dec d1 (-180) then d1 + 360 else d1.

Definition calcKyudoAngles (landmarks : Landmarks) : AngleData :=
  let nose      := lm landmarks 0 in
  let lEar      := lm landmarks 7 in
  let rEar      := lm landmarks 8 in
  let lShoulder := lm landmarks 11 in
  let rShoulder := lm landmarks 12 in
  let lElbow    := lm landmarks 13 in
  let rElbow    := lm landmarks 14 in
  let lWrist    := lm landmarks 15 in
  let rWrist    := lm landmarks 16 in
  let lHip      := lm landmarks 23 in
  let rHip      := lm landmarks 24 in
  {| leftElbow     := angle3 lShoulder lElbow lWrist;
     rightElbow    := angle3 rShoulder rElbow rWrist;
     leftShoulder  := angle3 lElbow lShoulder rShoulder;
     rightShoulder := angle3 lShoulder rShoulder rElbow;
     hipTilt :=
       match lHip, rHip with
       | Some lh, Some rh =>
           Some (Rabs (Math_atan2 (y rh - y lh) (x rh - x lh) * (180 / PI)))
       | _, _ => None
       end;
     spineTilt :=
       match lShoulder, rShoulder, lHip, rHip with
       | Some ls, Some rs, Some lh, Some rh =>
           let sMidx := (x ls + x rs) / 2 in
           let sMidy := (y ls + y rs) / 2 in
           let hMidx := (x lh + x rh) / 2 in
           let hMidy := (y lh + y rh) / 2 in
           Some (Rabs (Math_atan2 (sMidx - hMidx) (hMidy - sMidy) * (180 / PI)))
       | _, _, _, _ => None
       end;
     monomiAngle :=
       match lEar, rEar, lShoulder, rShoulder with
       | Some le, Some re, Some ls, Some rs =>
           let shoulderAngleRad := Math_atan2 (y rs - y ls) (x rs - x ls) in
           let earAngleRad := Math_atan2 (y re - y le) (x re - x le) in
           Some (normalize180 ((earAngleRad - shoulderAngleRad) * (180 / PI)))
       | _, _, _, _ => None
       end;
     kuchiwariOffset :=
       match nose, rWrist, lEar, rEar with
       | Some n, Some rw, Some le, Some re =>
           let earMidY := (y le + y re) / 2 in
           let estimatedMouthY := y n + (earMidY - y n) * (55 / 100) in
           Some (y rw - estimatedMouthY)
       | _, _, _, _ => None
       end |}.

(** *** Notions used to state the properties *)

(** Moving a landmark by [(dx, dy)]. *)
Definition translate (dx dy : R) (p : Landmark) : Landmark :=
  {| x := x p + dx; y := y p + dy |}.

(** The orientation of the line from [l] to [r], in degrees:
    [atan2] of the right-minus-left vector. *)
Definition orientation (l r : Landmark) : R :=
  Math_atan2 (y r - y l) (x r - x l) * (180 / PI).

(** A pose seen with level ears pointing right and level shoulders
    pointing left. *)
Definition lEar0 : Landmark := {| x := 4 / 10; y := 3 / 10 |}.
Definition rEar0 : Landmark := {| x := 6 / 10; y := 3 / 10 |}.
Definition lShoulder0 : Landmark := {| x := 7 / 10; y := 5 / 10 |}.
Definition rShoulder0 : Landmark := {| x := 3 / 10; y := 5 / 10 |}.

Definition oppositeLines : Landmarks :=
  repeat None 7 ++ [Some lEar0; Some rEar0] ++ repeat None 2
  ++ [Some lShoulder0; Some rShoulder0] ++ repeat None 20.

(** The mirror image of a landmark in normalized coordinates. *)
Definition mirror (p : Landmark) : Landmark :=
  {| x := 1 - x p; y := y p |}.

(** A pose that holds the two hips only. *)
Definition hipsOnly (lh rh : Landmark) : Landmarks :=
  repeat None 23 ++ [Some lh; Some rh].

End Geometry.

(** ** VideoAnalyzer.tsx: statistics helpers and [evaluateForm] *)

Module Scorer.
Local Open Scope Q_scope.

Local Notation "a <=? b" := (Qle_bool a b) (at level 70) : Q_scope.
Local Notation "a >=? b" := (Qle_bool b a) (at level 70) : Q_scope.
Local Notation "a <? b" := (negb (Qle_bool b a)) (at level 70) : Q_scope.
Local Notation "a >? b" := (negb (Qle_bool a b)) (at level 70) : Q_scope.

(** [interface FrameAngleData extends AngleData { frame: number }]. *)
Record FrameAngleData : Type := mkFrame {
  frame           : nat;
  leftElbow       : option Q;
  rightElbow      : option Q;
  leftShoulder    : option Q;
  rightShoulder   : option Q;
  hipTilt         : option Q;
  spineTilt       : option Q;
  monomiAngle     : option Q;
  kuchiwariOffset : option Q
}.

(** The [label] of an item, one per criterion, in the order of the source:
    押し手（左肘）の骨法, 馬手（右肘）の収まり, 引き分けの左右均等性,
    三重十文字, 胴造り, 会の保持安定性, 引き分けの滑らかさ, 物見, 口割. *)
Inductive Criterion : Type :=
| ElbowExtension | DrawElbowSettling | Symmetry | HipLevel | SpineVertical
| HoldStability | DrawSmoothness | Monomi | Kuchiwari.

(** The mark that opens every [comment] string: ✅, ⚠️ or ❌. *)
Inductive Tier : Type := Good | Warn | Bad.

(** [interface EvalItem].  [detail] and [ideal] are fixed texts per label
    and are left out. *)
Record EvalItem : Type := mkItem {
  label   : Criterion;
  score   : Z;
  comment : Tier
}.

(** The [rank] strings: '—', '四〜五段相当', '三段相当', '二段相当',
    '初段相当', '級位相当', '要基礎練習'. *)
Inductive Rank : Type :=
| Unrated | Dan4to5 | Dan3 | Dan2 | Dan1 | Kyu | NeedsBasics.

Record FormEvaluation : Type := mkEval {
  total : Z;
  rank  : Rank;
  items : list EvalItem
}.

Definition Criterion_eqb (a b : Criterion) : bool :=
  match a, b with
  | ElbowExtension, ElbowExtension | DrawElbowSettling, DrawElbowSettling
  | Symmetry, Symmetry | HipLevel, HipLevel | SpineVertical, SpineVertical
  | HoldStability, HoldStability | DrawSmoothness, DrawSmoothness
  | Monomi, Monomi | Kuchiwari, Kuchiwari => true
  | _, _ => false
  end.

(** Whether a list of items, or a report, carries an item for the
    criterion. *)
Definition hasItem (c : Criterion) (its : list EvalItem) : bool :=
  existsb (fun it => Criterion_eqb c (label it)) its.

Definition reported (c : Criterion) (r : FormEvaluation) : bool :=
  hasItem c (items r).

(** *** Number helpers *)

Definition Qsum (v : list Q) : Q := fold_left Qplus v 0.
Definition Qlen (v : list Q) : Q := inject_Z (Z.of_nat (length v)).

(** [Math.round]: the nearest integer, a tie going up. *)
Definition Math_round (q : Q) : Z := Qfloor (q + (1 # 2)).

(** [Math.floor(n * r)] for an array length [n]. *)
Definition floor_mul (n : nat) (r : Q) : nat :=
  Z.to_nat (Qfloor (inject_Z (Z.of_nat n) * r)).

(** [Math.max(...v)]; every call is guarded by [v.length > 5]. *)
Definition Math_max_list (v : list Q) : Q :=
  match v with
  | [] => 0
  | h :: t => fold_left Qmax t h
  end.

(** Rationals have no NaN. *)
Definition isNaN (_ : Q) : bool := false.

(** [nn]: drop the [null] entries. *)
Fixpoint nn (v : list (option Q)) : list Q :=
  match v with
  | [] => []
  | Some q :: t => q :: nn t
  | None :: t => nn t
  end.

Definition clamp (v lo hi : Q) : Q := Qmin hi (Qmax lo v).

Definition mean (v : list Q) : Q :=
  match v with
  | [] => 0
  | _ => Qsum v / Qlen v
  end.

(** [leVals.slice(1).map((v,i) => Math.abs(v - leVals[i]))]. *)
Fixpoint deltas (v : list Q) : list Q :=
  match v with
  | a :: (b :: _) as t => Qabs (b - a) :: deltas t
  | _ => []
  end.

Section WithSqrt.

(** [Math.sqrt]. *)
Variable Math_sqrt : Q -> Q.

Definition stddev (v : list Q) : Q :=
  if (length v <? 2)%nat then 0
  else
    let m := mean v in
    Math_sqrt (fold_left (fun a b => a + (b - m) * (b - m)) v 0 / Qlen v).

(** *** The nine criteria.  Each returns the items it pushes. *)

Definition item (l : Criterion) (raw : Q) (c : Tier) : EvalItem :=
  {| label := l; score := Math_round (clamp raw 0 100); comment := c |}.

Definition elbowExtension (leVals : list Q) : list EvalItem :=
  if (5 <? length leVals)%nat then
    let peak := Math_max_list leVals in
    let s :=
      if (peak >=? 160) && (peak <=? 172) then 100
      else if (peak >=? 150) && (peak <? 160) then 60 + (peak - 150) * 4
      else if (peak >? 172) && (peak <=? 178) then 100 - (peak - 172) * 10
      else if peak >? 178 then 40
      else clamp ((peak - 120) * 2) 0 60 in
    [item ElbowExtension s
       (if (peak >=? 160) && (peak <=? 172) then Good
        else if peak >? 178 then Bad
        else if peak >? 172 then Warn
        else if peak >=? 150 then Warn
        else Bad)]
  else [].

Definition drawElbowSettling (reVals : list Q) : list EvalItem :=
  if (5 <? length reVals)%nat then
    let late := skipn (floor_mul (length reVals) 0.5) reVals in
    let avg := mean late in
    let s :=
      if (avg >=? 80) && (avg <=? 110) then 100
      else if (avg >? 110) && (avg <=? 125) then 100 - (avg - 110) * 3
      else if avg >? 125 then clamp (100 - (avg - 110) * 5) 0 55
      else clamp (80 + (avg - 70) * 2) 0 80 in
    [item DrawElbowSettling s
       (if (avg >=? 80) && (avg <=? 110) then Good
        else if avg >? 125 then Bad
        else if avg >? 110 then Warn
        else Warn)]
  else [].

Definition symmetry (lsVals rsVals : list Q) : list EvalItem :=
  if (5 <? length lsVals)%nat && (5 <? length rsVals)%nat then
    let diff := Qabs (mean lsVals - mean rsVals) in
    let avgStab := (stddev lsVals + stddev rsVals) / 2 in
    let s := clamp (100 - diff * 3) 0 100 * 0.6
             + clamp (100 - avgStab * 3) 0 100 * 0.4 in
    [item Symmetry s
       (if (diff <=? 8) && (avgStab <=? 10) then Good
        else if diff <=? 15 then Warn
        else Bad)]
  else [].

Definition hipLevel (hipVals : list Q) : list EvalItem :=
  if (5 <? length hipVals)%nat then
    let s := clamp (100 - mean hipVals * 9) 0 100 * 0.65
             + clamp (100 - stddev hipVals * 6) 0 100 * 0.35 in
    [item HipLevel s
       (if (mean hipVals <=? 4) && (stddev hipVals <=? 4) then Good
        else if mean hipVals <=? 7 then Warn
        else if mean hipVals <=? 13 then Bad
        else Bad)]
  else [].

Definition spineVertical (spineVals : list Q) : list EvalItem :=
  if (5 <? length spineVals)%nat then
    let s := clamp (100 - mean spineVals * 7) 0 100 * 0.65
             + clamp (100 - stddev spineVals * 5) 0 100 * 0.35 in
    [item SpineVertical s
       (if (mean spineVals <=? 4) && (stddev spineVals <=? 5) then Good
        else if mean spineVals <=? 8 then Warn
        else if mean spineVals <=? 14 then Bad
        else Bad)]
  else [].

Definition holdStability (nframes : nat) (leVals reVals : list Q)
  : list EvalItem :=
  let lateLE := skipn (floor_mul (length leVals) 0.55) leVals in
  let lateRE := skipn (floor_mul (length reVals) 0.55) reVals in
  if (5 <? length lateLE)%nat && (5 <? length lateRE)%nat then
    let avgStd := (stddev lateLE + stddev lateRE) / 2 in
    let kaiSec := inject_Z (Z.of_nat nframes) / 30 * 0.33 in
    let kaiBonus :=
      if kaiSec >=? 3 then 0 else if kaiSec >=? 1.5 then -10 else -25 in
    let s := clamp (100 - avgStd * 5 + kaiBonus) 0 100 in
    [item HoldStability s
       (if (avgStd <=? 4) && Qeq_bool kaiBonus 0 then Good
        else if Qeq_bool kaiBonus (-25) then Bad
        else if avgStd <=? 9 then Warn
        else Bad)]
  else [].

Definition drawSmoothness (leVals : list Q) : list EvalItem :=
  if (10 <? length leVals)%nat then
    let ds := deltas leVals in
    let s := clamp (100 - stddev ds * 18 - Qmax 0 (mean ds - 1.5) * 10) 0 100 in
    [item DrawSmoothness s
       (if s >=? 82 then Good else if s >=? 62 then Warn else Bad)]
  else [].

Definition monomi (monomiVals : list Q) : list EvalItem :=
  if (5 <? length monomiVals)%nat then
    let late := skipn (floor_mul (length monomiVals) 0.3) monomiVals in
    let avg := mean late in
    let std := stddev late in
    if negb (isNaN avg) && negb (isNaN std) then
      let aScore :=
        if (avg >=? 35) && (avg <=? 55) then 100
        else if (avg >=? 25) && (avg <? 35) then 60 + (avg - 25) * 4
        else if (avg >? 55) && (avg <=? 68) then 100 - (avg - 55) * 4
        else if avg <? 25 then clamp (avg * 2.4) 0 60
        else clamp (100 - (avg - 55) * 6) 0 60 in
      let s := aScore * 0.65 + clamp (100 - std * 5) 0 100 * 0.35 in
      [item Monomi s
         (if (avg >=? 35) && (avg <=? 55) && (std <=? 6) then Good
          else if avg <? 25 then Bad
          else if avg <? 35 then Warn
          else if avg >? 68 then Warn
          else if std >? 10 then Warn
          else Warn)]
    else []
  else [].

Definition kuchiwari (kVals : list Q) : list EvalItem :=
  if (5 <? length kVals)%nat then
    let late := skipn (floor_mul (length kVals) 0.5) kVals in
    let avg := mean late in
    let std := stddev late in
    if negb (isNaN avg) && negb (isNaN std) then
      let pScore :=
        if (avg >=? -0.01) && (avg <=? 0.03) then 100
        else if (avg >? 0.03) && (avg <=? 0.07) then 100 - (avg - 0.03) * 1000
        else if (avg <? -0.01) && (avg >=? -0.05) then 100 + (avg + 0.01) * 1000
        else clamp (50 - Qabs avg * 500) 0 50 in
      let s := pScore * 0.7 + clamp (100 - std * 1000) 0 100 * 0.3 in
      [item Kuchiwari s
         (if (avg >=? -0.01) && (avg <=? 0.03) && (std <=? 0.02) then Good
          else if avg >? 0.05 then Bad
          else if avg >? 0.03 then Warn
          else if avg <? -0.05 then Bad
          else if avg <? -0.01 then Warn
          else if std >? 0.02 then Warn
          else Warn)]
    else []
  else [].

(** *** The report *)

Definition rankOf (t : Z) : Rank :=
  if (90 <=? t)%Z then Dan4to5
  else if (78 <=? t)%Z then Dan3
  else if (65 <=? t)%Z then Dan2
  else if (52 <=? t)%Z then Dan1
  else if (38 <=? t)%Z then Kyu
  else NeedsBasics.

Definition scoreSum (its : list EvalItem) : Z :=
  fold_left (fun a b => (a + score b)%Z) its 0%Z.

(** The items pushed by [evaluateForm], in push order. *)
Definition evalItems (frames : list FrameAngleData) : list EvalItem :=
  let leVals := nn (map leftElbow frames) in
  let reVals := nn (map rightElbow frames) in
  let lsVals := nn (map leftShoulder frames) in
  let rsVals := nn (map rightShoulder frames) in
  let hipVals := nn (map hipTilt frames) in
  let spineVals := nn (map spineTilt frames) in
  let monomiVals := nn (map monomiAngle frames) in
  let kVals := nn (map kuchiwariOffset frames) in
  elbowExtension leVals
  ++ drawElbowSettling reVals
  ++ symmetry lsVals rsVals
  ++ hipLevel hipVals
  ++ spineVertical spineVals
  ++ holdStability (length frames) leVals reVals
  ++ drawSmoothness leVals
  ++ monomi monomiVals
  ++ kuchiwari kVals.

Definition neutral : FormEvaluation :=
  {| total := 0; rank := Unrated; items := [] |}.

Definition evaluateForm (frames : list FrameAngleData) : FormEvaluation :=
  match frames with
  | [] => neutral
  | _ =>
      let its := evalItems frames in
      match its with
      | [] => neutral
      | _ =>
          let t := Math_round (inject_Z (scoreSum its)
                               / inject_Z (Z.of_nat (length its))) in
          {| total := t; rank := rankOf t; items := its |}
      end
  end.

End WithSqrt.

(** A square root to run examples with: the rational [floor(sqrt(q * 4^32))
    / 2^32].  No statement below depends on this choice. *)
Definition sqrt_fixed (q : Q) : Q :=
  Z.sqrt (Qfloor (q * inject_Z (2 ^ 64))) # (2 ^ 32).

(** *** Notions used to state the properties *)

(** The number of frames in which a metric is not [null]. *)
Definition valid (metric : FrameAngleData -> option Q)
  (frames : list FrameAngleData) : nat :=
  length (nn (map metric frames)).

(** The sum of the item scores, written as a plain sum. *)
Definition sumScores (its : list EvalItem) : Z :=
  fold_right Z.add 0%Z (map score its).

(** A frame that carries the left elbow angle only. *)
Definition elbowOnly (i : nat) (a : Q) : FrameAngleData :=
  {| frame := i; leftElbow := Some a; rightElbow := None;
     leftShoulder := None; rightShoulder := None; hipTilt := None;
     spineTilt := None; monomiAngle := None; kuchiwariOffset := None |}.

(** A frame in which every metric is measured. *)
Definition fullFrame (i : nat) : FrameAngleData :=
  {| frame := i; leftElbow := Some 165%Q; rightElbow := Some 95%Q;
     leftShoulder := Some 90%Q; rightShoulder := Some 90%Q;
     hipTilt := Some 2%Q; spineTilt := Some 3%Q;
     monomiAngle := Some 45%Q; kuchiwariOffset := Some 0.01%Q |}.

Definition sixElbows : list FrameAngleData :=
  map (fun i => elbowOnly i 165) (seq 0 6).

Definition fiveFull : list FrameAngleData := map fullFrame (seq 0 5).
Definition twentyFull : list FrameAngleData := map fullFrame (seq 0 20).

(** The criteria in the order in which [evaluateForm] looks at them. *)
Definition allCriteria : list Criterion :=
  [ElbowExtension; DrawElbowSettling; Symmetry; HipLevel; SpineVertical;
   HoldStability; DrawSmoothness; Monomi; Kuchiwari].

End Scorer.

(** ** AngleChart.tsx: the data handed to the chart *)

Module Chart.
Import Scorer.
Local Open Scope Q_scope.

Definition MAX_DISPLAY_FRAMES : nat := 300.

(** [Math.ceil(n / m)] for an array length [n]. *)
Definition ceil_div (n m : nat) : nat :=
  Z.to_nat (Qceiling (inject_Z (Z.of_nat n) / inject_Z (Z.of_nat m))).

(** [data.filter((_, i) => p(i))], the index starting at [i]. *)
Fixpoint filterIndex {A : Type} (p : nat -> bool) (i : nat) (l : list A)
  : list A :=
  match l with
  | [] => []
  | a :: t => if p i then a :: filterIndex p (S i) t else filterIndex p (S i) t
  end.

(** The object spread with [kuchiwariOffset] multiplied by 100. *)
Definition rescale (f : FrameAngleData) : FrameAngleData :=
  {| frame := frame f; leftElbow := leftElbow f; rightElbow := rightElbow f;
     leftShoulder := leftShoulder f; rightShoulder := rightShoulder f;
     hipTilt := hipTilt f; spineTilt := spineTilt f;
     monomiAngle := monomiAngle f;
     kuchiwariOffset :=
       match kuchiwariOffset f with
       | Some k => Some (k * 100)
       | None => None
       end |}.

(** The [chartData] memo of [AngleChart]. *)
Definition chartData (data : list FrameAngleData) : list FrameAngleData :=
  let raw :=
    if (length data <=? MAX_DISPLAY_FRAMES)%nat then data
    else
      filterIndex
        (fun i => (i mod ceil_div (length data) MAX_DISPLAY_FRAMES =? 0)%nat)
        0 data in
  map rescale raw.

End Chart.

(** ** VideoAnalyzer.tsx: what the analysis captures *)

Module Capture.
Import Geometry.
Local Open Scope R_scope.

(** [interface StoredFrame], as it is pushed by the [onResults] handler. *)
Record StoredFrame : Type := mkStored {
  frame     : nat;
  timeMs    : R;
  landmarks : Landmarks
}.

(** An entry of [frameAngles]: [{ frame: current, ...angles }]. *)
Record FrameAngles : Type := mkFrameAngles {
  angleFrame : nat;
  angles     : AngleData
}.

(** What the handler writes to: [frameRef.current],
    [storedFramesRef.current], and the [frameAngles] and [displayCount]
    states. *)
Record State : Type := mkState {
  frameRef     : nat;
  storedFrames : list StoredFrame;
  frameAngles  : list FrameAngles;
  displayCount : nat
}.

(** The state in which a newly loaded video starts. *)
Definition reset : State :=
  {| frameRef := 0; storedFrames := []; frameAngles := []; displayCount := 0 |}.

(** One call of the handler: whether [canvas.getContext('2d')] gives a
    context, [results.poseLandmarks], which is missing when nothing was
    detected, and [video.currentTime] at that moment.  The [video] of the
    handler is the element the effect has already found, so its test
    [!video] never holds. *)
Record Results : Type := mkResults {
  context       : bool;
  poseLandmarks : option Landmarks;
  videoTime     : R
}.

Definition detected (r : Results) : bool :=
  match poseLandmarks r with
  | Some _ => true
  | None => false
  end.

(** A result that is recorded: there is a context to draw on and the
    detector found landmarks. *)
Definition recorded (r : Results) : bool := context r && detected r.

(** The handler given to [pose.onResults], the drawing left out:
    [if (!ctx||!video) return;] and then the block under
    [if (results.poseLandmarks)]. *)
Definition onResults (s : State) (r : Results) : State :=
  if negb (context r) then s else
  match poseLandmarks r with
  | Some lms =>
      let current := frameRef s in
      {| frameRef := S current;
         storedFrames :=
           storedFrames s
           ++ [{| frame := current; timeMs := videoTime r * 1000;
                  landmarks := lms |}];
         frameAngles :=
           frameAngles s
           ++ [{| angleFrame := current; angles := calcKyudoAngles lms |}];
         displayCount := S current |}
  | None => s
  end.

Definition capture (rs : list Results) : State := fold_left onResults rs reset.

(** What the handler keeps true of its state. *)
Definition consistent (s : State) : Prop :=
  frameRef s = length (storedFrames s)
  /\ length (frameAngles s) = length (storedFrames s)
  /\ displayCount s = length (storedFrames s)
  /\ forall i f, nth_error (storedFrames s) i = Some f ->
       frame f = i
       /\ nth_error (frameAngles s) i
          = Some {| angleFrame := i; angles := calcKyudoAngles (landmarks f) |}.


End Capture.

(** ** VideoAnalyzer.tsx: the replay controls *)

Module Replay.
Local Open Scope Q_scope.

(** [interface StoredFrame].  The stored landmarks are only handed to the
    drawing routine and are left out. *)
Record StoredFrame : Type := mkStored {
  frame  : nat;
  timeMs : Q
}.

(** What a replay finds around it: whether [canvasRef.current] and
    [videoRef.current] are set, whether [canvas.getContext('2d')] gives a
    context, and [storedFramesRef.current]. *)
Record Env : Type := mkEnv {
  canvas : bool;
  video  : bool;
  ctx    : bool;
  stored : list StoredFrame
}.

(** The [loop] closure made by one call of [startReplay], with the
    variables it captures. *)
Record Loop : Type := mkLoop {
  speed         : Q;
  lastRealTime  : option Q;
  lastFrameTime : Q
}.

(** The replay state of the component.  [replayRafRef] is the pending
    animation-frame request, given as the callback it will run; a cancelled
    or consumed request is [None].  [currentTime] is [video.currentTime]
    (seconds) and [drawn] the index of the stored frame last painted. *)
Record State : Type := mkState {
  isReplaying     : bool;
  replayPaused    : bool;
  replaySpeed     : Q;
  replayFrame     : nat;
  replayIdxRef    : nat;
  replayPausedRef : bool;
  replayRafRef    : option Loop;
  currentTime     : Q;
  drawn           : option nat
}.

(** The state after the analysis has finished and before any replay. *)
Definition initial : State :=
  {| isReplaying := false; replayPaused := false; replaySpeed := 1;
     replayFrame := 0; replayIdxRef := 0; replayPausedRef := false;
     replayRafRef := None; currentTime := 0; drawn := None |}.

Definition stopReplay (s : State) : State :=
  {| isReplaying := false; replayPaused := false;
     replaySpeed := replaySpeed s; replayFrame := replayFrame s;
     replayIdxRef := replayIdxRef s; replayPausedRef := false;
     replayRafRef := None; currentTime := currentTime s; drawn := drawn s |}.

(** [stored[startIdx]?.timeMs ?? 0]. *)
Definition anchor (st : list StoredFrame) (startIdx : nat) : Q :=
  match nth_error st startIdx with
  | Some f => timeMs f
  | None => 0
  end.

Definition startReplay (e : Env) (startIdx : nat) (sp : Q) (s : State) : State :=
  if negb (canvas e) || negb (video e) || (length (stored e) =? 0)%nat then s
  else
    {| isReplaying := true; replayPaused := false;
       replaySpeed := replaySpeed s; replayFrame := replayFrame s;
       replayIdxRef := startIdx; replayPausedRef := false;
       replayRafRef :=
         if ctx e then
           Some {| speed := sp; lastRealTime := None;
                   lastFrameTime := anchor (stored e) startIdx |}
         else None;
       currentTime := currentTime s; drawn := drawn s |}.

(** The test of the [while] in [loop]:
    [nextIdx < stored.length-1 && stored[nextIdx].timeMs <= lastFrameTime]. *)
Definition loopCond (st : list StoredFrame) (lft : Q) (nextIdx : nat) : bool :=
  (nextIdx <? length st - 1)%nat
  && match nth_error st nextIdx with
     | Some f => Qle_bool (timeMs f) lft
     | None => false
     end.

(** The [while] itself, with a bound on the number of rounds. *)
Fixpoint advanceFuel (st : list StoredFrame) (lft : Q) (fuel nextIdx : nat) : nat :=
  match fuel with
  | O => nextIdx
  | S k =>
      if loopCond st lft nextIdx then advanceFuel st lft k (S nextIdx)
      else nextIdx
  end.

(** [length st] rounds are enough: see [advance_exits]. *)
Definition advance (st : list StoredFrame) (lft : Q) (idx : nat) : nat :=
  advanceFuel st lft (length st) idx.

(** One run of the [loop] callback at the time [now]. *)
Definition loop (e : Env) (l : Loop) (now : Q) (s : State) : State :=
  if replayPausedRef s then s
  else
    let idx := replayIdxRef s in
    if (length (stored e) <=? idx)%nat then stopReplay s
    else
      let last := match lastRealTime l with Some t => t | None => now end in
      let realElapsed := now - last in
      let lft := lastFrameTime l + realElapsed * speed l in
      let nextIdx := advance (stored e) lft idx in
      match nth_error (stored e) nextIdx with
      | Some f =>
          {| isReplaying := isReplaying s; replayPaused := replayPaused s;
             replaySpeed := replaySpeed s; replayFrame := nextIdx;
             replayIdxRef := nextIdx; replayPausedRef := replayPausedRef s;
             replayRafRef :=
               Some {| speed := speed l; lastRealTime := Some now;
                       lastFrameTime := lft |};
             currentTime := timeMs f / 1000; drawn := Some nextIdx |}
      | None =>
          (* [frame.timeMs] on [undefined] throws: nothing is rescheduled *)
          {| isReplaying := isReplaying s; replayPaused := replayPaused s;
             replaySpeed := replaySpeed s; replayFrame := nextIdx;
             replayIdxRef := nextIdx; replayPausedRef := replayPausedRef s;
             replayRafRef := None;
             currentTime := currentTime s; drawn := drawn s |}
      end.

Definition toggleReplayPause (s : State) : State :=
  let next := negb (replayPausedRef s) in
  {| isReplaying := isReplaying s; replayPaused := next;
     replaySpeed := replaySpeed s; replayFrame := replayFrame s;
     replayIdxRef := replayIdxRef s; replayPausedRef := next;
     replayRafRef := replayRafRef s;
     currentTime := currentTime s; drawn := drawn s |}.

Definition handleSeek (e : Env) (idx : nat) (s : State) : State :=
  let painted :=
    match nth_error (stored e) idx with
    | Some f => if canvas e && video e && ctx e then Some f else None
    | None => None
    end in
  {| isReplaying := isReplaying s; replayPaused := replayPaused s;
     replaySpeed := replaySpeed s; replayFrame := idx;
     replayIdxRef := idx; replayPausedRef := replayPausedRef s;
     replayRafRef := replayRafRef s;
     currentTime :=
       match painted with Some f => timeMs f / 1000 | None => currentTime s end;
     drawn := match painted with Some _ => Some idx | None => drawn s end |}.

(** The [onClick] of a speed button. *)
Definition setSpeed (e : Env) (sp : Q) (s : State) : State :=
  let s1 :=
    {| isReplaying := isReplaying s; replayPaused := replayPaused s;
       replaySpeed := sp; replayFrame := replayFrame s;
       replayIdxRef := replayIdxRef s; replayPausedRef := replayPausedRef s;
       replayRafRef := replayRafRef s;
       currentTime := currentTime s; drawn := drawn s |} in
  if isReplaying s then startReplay e (replayIdxRef s) sp s1 else s1.

(** The [onMouseDown] of the seek bar. *)
Definition seekbarDown (e : Env) (s : State) : State :=
  if isReplaying s then s
  else
    let s1 := startReplay e 0 (replaySpeed s) s in
    {| isReplaying := isReplaying s1; replayPaused := true;
       replaySpeed := replaySpeed s1; replayFrame := replayFrame s1;
       replayIdxRef := replayIdxRef s1; replayPausedRef := true;
       replayRafRef := replayRafRef s1;
       currentTime := currentTime s1; drawn := drawn s1 |}.

(** What can happen to the component: the user's actions on the controls
    and the browser running the pending animation-frame callback at a time
    [now].  The play button is shown while no replay runs, the pause and
    stop buttons while one does. *)
Inductive Event : Type :=
| Play
| Pause
| Stop
| Seek (idx : nat)
| SeekbarDown
| Speed (sp : Q)
| Tick (now : Q).

Definition step (e : Env) (s : State) (ev : Event) : State :=
  match ev with
  | Play => if isReplaying s then s else startReplay e 0 (replaySpeed s) s
  | Pause => if isReplaying s then toggleReplayPause s else s
  | Stop => if isReplaying s then stopReplay s else s
  | Seek idx => handleSeek e idx s
  | SeekbarDown => seekbarDown e s
  | Speed sp => setSpeed e sp s
  | Tick now =>
      match replayRafRef s with
      | Some l => loop e l now s
      | None => s
      end
  end.

Definition run (e : Env) (s : State) (evs : list Event) : State :=
  fold_left (step e) evs s.

(** Whether an animation-frame callback is pending. *)
Definition scheduled (s : State) : bool :=
  match replayRafRef s with
  | Some _ => true
  | None => false
  end.

(** The virtual timestamp held by the pending callback. *)
Definition virtualTime (s : State) : option Q :=
  option_map lastFrameTime (replayRafRef s).

(** The timestamp of the stored frame the replay stands on. *)
Definition shownTime (e : Env) (s : State) : option Q :=
  option_map timeMs (nth_error (stored e) (replayIdxRef s)).

(** The frame search as the specification words it: step forward while a
    next frame exists and the next frame is stamped at or before the
    virtual timestamp.  It stops on the nearest frame that does not exceed
    the virtual timestamp. *)
Definition nextFrameCond (st : list StoredFrame) (lft : Q) (i : nat) : bool :=
  match nth_error st (S i) with
  | Some f => Qle_bool (timeMs f) lft
  | None => false
  end.

Fixpoint nearestFuel (st : list StoredFrame) (lft : Q) (fuel i : nat) : nat :=
  match fuel with
  | O => i
  | S k =>
      if nextFrameCond st lft i then nearestFuel st lft k (S i) else i
  end.

Definition nearestNotExceeding (st : list StoredFrame) (lft : Q) (idx : nat)
  : nat :=
  nearestFuel st lft (length st) idx.

(** A replay that is under way: the component says so, a callback is
    pending and the index is inside the buffer. *)
Definition running (e : Env) (s : State) : Prop :=
  isReplaying s = true /\ scheduled s = true
  /\ (replayIdxRef s < length (stored e))%nat.

(** A capture of [n] frames, [dt] milliseconds apart, with every DOM
    object in place. *)
Definition evenly (n : nat) (dt : Q) : Env :=
  {| canvas := true; video := true; ctx := true;
     stored := map (fun i => {| frame := i;
                                timeMs := inject_Z (Z.of_nat i) * dt |})
                   (seq 0 n) |}.

(** The virtual timestamp a run of the callback at [now] moves to: the
    [lastFrameTime += realElapsed * speed] of [loop]. *)
Definition nextVirtualTime (l : Loop) (now : Q) : Q :=
  lastFrameTime l
  + (now - match lastRealTime l with Some t => t | None => now end) * speed l.

(** A seek bar event inside the buffer; the bar ranges over
    [0 .. totalFrames - 1]. *)
Definition inRange (e : Env) (ev : Event) : Prop :=
  match ev with
  | Seek idx => (idx < length (stored e))%nat
  | _ => True
  end.

End Replay.

(* ================================================================== *)
(** * Properties *)
(* ================================================================== *)

(** ** Joint angles *)

Module GeometryFacts.
Import Geometry.
Local Open Scope R_scope.

Lemma deg_pos : 0 < 180 / PI.
Proof.
  apply Rdiv_lt_0_compat; [lra | apply PI_RGT_0].
Qed.

Lemma PI_deg : PI * (180 / PI) = 180.
Proof.
  field. apply PI_neq0.
Qed.

Lemma Math_atan2_bound (py px : R) : - PI < Math_atan2 py px <= PI.
Proof.
  pose proof PI_RGT_0 as HPI.
  pose proof (atan_bound (py / px)) as [Hlo Hhi].
  unfold Math_atan2.
  destruct (Rlt_dec 0 px) as [Hx | Hx]; [lra |].
  destruct (Rlt_dec px 0) as [Hx' | Hx'].
  - assert (Hinv : / px < 0) by (apply Rinv_lt_0_compat; exact Hx').
    destruct (Rle_dec 0 py) as [Hy | Hy].
    + assert (Hq : py / px <= 0) by (unfold Rdiv; nra).
      assert (Ha : atan (py / px) <= 0).
      { destruct Hq as [Hq | Hq].
        - left. rewrite <- atan_0. apply atan_increasing. exact Hq.
        - rewrite Hq, atan_0. lra. }
      lra.
    + assert (Hq : 0 < py / px) by (unfold Rdiv; nra).
      assert (Ha : 0 < atan (py / px)).
      { rewrite <- atan_0. apply atan_increasing. exact Hq. }
      lra.
  - destruct (Rlt_dec 0 py); [lra |].
    destruct (Rlt_dec py 0); lra.
Qed.

Lemma Math_atan2_east (py px : R) : py = 0 -> 0 < px -> Math_atan2 py px = 0.
Proof.
  intros -> Hx. unfold Math_atan2.
  destruct (Rlt_dec 0 px) as [_ | H]; [| contradiction].
  unfold Rdiv. rewrite Rmult_0_l. apply atan_0.
Qed.

Lemma Math_atan2_west (py px : R) : py = 0 -> px < 0 -> Math_atan2 py px = PI.
Proof.
  intros -> Hx. unfold Math_atan2.
  destruct (Rlt_dec 0 px) as [H | _]; [lra |].
  destruct (Rlt_dec px 0) as [_ | H]; [| contradiction].
  destruct (Rle_dec 0 0) as [_ | H]; [| lra].
  unfold Rdiv. rewrite Rmult_0_l, atan_0. lra.
Qed.

Lemma orientation_bound (l r : Landmark) : -180 < orientation l r <= 180.
Proof.
  unfold orientation.
  pose proof (Math_atan2_bound (y r - y l) (x r - x l)) as [Hlo Hhi].
  pose proof deg_pos as Hd. pose proof PI_deg as HP.
  split; nra.
Qed.

(** What the two conditional subtractions do to a difference of two
    orientations. *)
Lemma normalize180_spec (d : R) :
  -360 < d < 360 ->
  -180 <= normalize180 d <= 180
  /\ (normalize180 d = d - 360 \/ normalize180 d = d \/ normalize180 d = d + 360)
  /\ (normalize180 d = -180 -> d = -180).
Proof.
  intros [Hlo Hhi]. unfold normalize180.
  destruct (Rlt_dec 180 d) as [H1 | H1].
  - destruct (Rlt_dec (d - 360) (-180)) as [H2 | H2]; [lra |].
    repeat split; lra.
  - destruct (Rlt_dec d (-180)) as [H2 | H2]; repeat split; lra.
Qed.

Lemma sqrt_sq_sum_0 (u v : R) : u = 0 -> v = 0 -> sqrt (u ^ 2 + v ^ 2) = 0.
Proof.
  intros -> ->. replace (0 ^ 2 + 0 ^ 2) with 0 by ring. apply sqrt_0.
Qed.

Lemma calcAngle_sym (a b c : Landmark) : calcAngle a b c = calcAngle c b a.
Proof.
  unfold calcAngle. cbv zeta.
  rewrite (Rmult_comm (sqrt ((x a - x b) ^ 2 + (y a - y b) ^ 2))).
  rewrite (Rmult_comm (x a - x b)), (Rmult_comm (y a - y b)).
  reflexivity.
Qed.

Lemma calcAngle_translate (dx dy : R) (a b c : Landmark) :
  calcAngle (translate dx dy a) (translate dx dy b) (translate dx dy c)
  = calcAngle a b c.
Proof.
  unfold calcAngle, translate. cbn [x y].
  replace (x a + dx - (x b + dx)) with (x a - x b) by ring.
  replace (y a + dy - (y b + dy)) with (y a - y b) by ring.
  replace (x c + dx - (x b + dx)) with (x c - x b) by ring.
  replace (y c + dy - (y b + dy)) with (y c - y b) by ring.
  reflexivity.
Qed.

Lemma calcAngle_degenerate (a b c : Landmark) :
  sqrt ((x a - x b) ^ 2 + (y a - y b) ^ 2) = 0
  \/ sqrt ((x c - x b) ^ 2 + (y c - y b) ^ 2) = 0 ->
  calcAngle a b c = 0.
Proof.
  intros H. unfold calcAngle. cbv zeta.
  destruct (Req_dec_T _ 0) as [_ | Hne]; [reflexivity |].
  exfalso. apply Hne. destruct H as [H | H]; rewrite H; ring.
Qed.

Lemma calcAngle_range (a b c : Landmark) : 0 <= calcAngle a b c <= 180.
Proof.
  unfold calcAngle. cbv zeta.
  destruct (Req_dec_T _ 0) as [_ | _]; [lra |].
  match goal with |- context [acos ?t] => pose proof (acos_bound t) as [Hlo Hhi] end.
  pose proof deg_pos as Hd. pose proof PI_deg as HP.
  split; nra.
Qed.

(** C7.  [calcAngle] gives the same angle when the two outer points are
    swapped and when all three points are moved by one vector; it is
    exactly 0 as soon as the vector from the vertex to either outer point
    has length zero; and it always lies between 0 and 180 degrees. *)
Theorem calcAngle_properties (a b c : Landmark) (dx dy : R) :
  calcAngle a b c = calcAngle c b a
  /\ calcAngle (translate dx dy a) (translate dx dy b) (translate dx dy c)
     = calcAngle a b c
  /\ (sqrt ((x a - x b) ^ 2 + (y a - y b) ^ 2) = 0
      \/ sqrt ((x c - x b) ^ 2 + (y c - y b) ^ 2) = 0 ->
      calcAngle a b c = 0)
  /\ 0 <= calcAngle a b c <= 180.
Proof.
  split; [apply calcAngle_sym |].
  split; [apply calcAngle_translate |].
  split; [apply calcAngle_degenerate | apply calcAngle_range].
Qed.

(** The degenerate case of C7 at a concrete triple: the elbow sits on the
    shoulder. *)
Lemma calcAngle_properties_witness :
  calcAngle {| x := 1 / 2; y := 1 / 4 |} {| x := 1 / 2; y := 1 / 4 |}
            {| x := 3 / 4; y := 1 / 2 |} = 0.
Proof.
  apply (calcAngle_properties _ _ _ 0 0).
  left. cbn [x y]. apply sqrt_sq_sum_0; lra.
Defined.

Lemma monomi_oppositeLines :
  monomiAngle (calcKyudoAngles oppositeLines) = Some (-180).
Proof.
  cbn [calcKyudoAngles monomiAngle oppositeLines lm nth_error repeat app].
  f_equal.
  rewrite (Math_atan2_east (y rEar0 - y lEar0) (x rEar0 - x lEar0));
    [| cbn; lra | cbn; lra].
  rewrite (Math_atan2_west (y rShoulder0 - y lShoulder0)
                           (x rShoulder0 - x lShoulder0));
    [| cbn; lra | cbn; lra].
  replace ((0 - PI) * (180 / PI)) with (-180)
    by (replace ((0 - PI) * (180 / PI)) with (- (PI * (180 / PI))) by ring;
        rewrite PI_deg; lra).
  unfold normalize180.
  destruct (Rlt_dec 180 (-180)) as [H | _]; [lra |].
  destruct (Rlt_dec (-180) (-180)) as [H | _]; [lra | reflexivity].
Qed.

(** C8, as stated, fails: with the ear line pointing right (orientation 0)
    and the shoulder line pointing left (orientation 180) the difference is
    exactly -180, which the two conditional subtractions leave alone, so
    the result is -180 and not a value of the half-open interval
    (-180, 180]. *)
Lemma monomi_not_half_open :
  orientation lEar0 rEar0 - orientation lShoulder0 rShoulder0 = -180
  /\ monomiAngle (calcKyudoAngles oppositeLines) = Some (-180)
  /\ ~ (-180 < -180 <= 180).
Proof.
  split; [| split; [apply monomi_oppositeLines | lra]].
  unfold orientation.
  rewrite Math_atan2_east by (cbn; lra).
  rewrite Math_atan2_west by (cbn; lra).
  rewrite PI_deg. lra.
Qed.

(** The value the two conditional subtractions give, case by case. *)
Lemma normalize180_cases (d : R) :
  (180 < d -> normalize180 d = d - 360)
  /\ (d < -180 -> normalize180 d = d + 360)
  /\ (-180 <= d <= 180 -> normalize180 d = d).
Proof.
  unfold normalize180.
  destruct (Rlt_dec 180 d) as [H1 | H1].
  - destruct (Rlt_dec (d - 360) (-180)) as [H2 | H2]; repeat split; intros; lra.
  - destruct (Rlt_dec d (-180)) as [H2 | H2]; repeat split; intros; lra.
Qed.

(** C8, amended.  When both ears and both shoulders are present, the
    head-rotation angle is the ear-line orientation minus the shoulder-line
    orientation, normalized into the closed interval [-180, 180]: a
    difference between -180 and 180, both ends included, is returned as it
    is, a difference above 180 is returned less 360 and a difference below
    -180 is returned plus 360.  So the end -180 is returned exactly when
    the difference is -180. *)
Theorem monomi_normalized (landmarks : Landmarks) (le re ls rs : Landmark) :
  lm landmarks 7 = Some le -> lm landmarks 8 = Some re ->
  lm landmarks 11 = Some ls -> lm landmarks 12 = Some rs ->
  exists d : R,
    monomiAngle (calcKyudoAngles landmarks) = Some d
    /\ -180 <= d <= 180
    /\ (d = orientation le re - orientation ls rs - 360
        \/ d = orientation le re - orientation ls rs
        \/ d = orientation le re - orientation ls rs + 360)
    /\ (d = -180 <-> orientation le re - orientation ls rs = -180)
    /\ (180 < orientation le re - orientation ls rs ->
        d = orientation le re - orientation ls rs - 360)
    /\ (orientation le re - orientation ls rs < -180 ->
        d = orientation le re - orientation ls rs + 360)
    /\ (-180 <= orientation le re - orientation ls rs <= 180 ->
        d = orientation le re - orientation ls rs).
Proof.
  intros H7 H8 H11 H12.
  unfold calcKyudoAngles. cbn [monomiAngle]. rewrite H7, H8, H11, H12.
  eexists. split; [reflexivity |].
  rewrite Rmult_minus_distr_r. fold (orientation le re) (orientation ls rs).
  set (diff := orientation le re - orientation ls rs).
  assert (Hdiff : -360 < diff < 360).
  { pose proof (orientation_bound le re). pose proof (orientation_bound ls rs).
    unfold diff. lra. }
  destruct (normalize180_spec diff Hdiff) as (Hrange & Hshift & Hend).
  destruct (normalize180_cases diff) as (Habove & Hbelow & Hmid).
  split; [exact Hrange |]. split; [exact Hshift |].
  split; [| split; [exact Habove | split; [exact Hbelow | exact Hmid]]].
  split; [exact Hend |].
  intros E. rewrite Hmid by lra. exact E.
Qed.

Lemma monomi_normalized_witness :
  exists d : R,
    monomiAngle (calcKyudoAngles oppositeLines) = Some d
    /\ -180 <= d <= 180
    /\ (d = orientation lEar0 rEar0 - orientation lShoulder0 rShoulder0 - 360
        \/ d = orientation lEar0 rEar0 - orientation lShoulder0 rShoulder0
        \/ d = orientation lEar0 rEar0 - orientation lShoulder0 rShoulder0 + 360)
    /\ (d = -180
        <-> orientation lEar0 rEar0 - orientation lShoulder0 rShoulder0 = -180)
    /\ (180 < orientation lEar0 rEar0 - orientation lShoulder0 rShoulder0 ->
        d = orientation lEar0 rEar0 - orientation lShoulder0 rShoulder0 - 360)
    /\ (orientation lEar0 rEar0 - orientation lShoulder0 rShoulder0 < -180 ->
        d = orientation lEar0 rEar0 - orientation lShoulder0 rShoulder0 + 360)
    /\ (-180 <= orientation lEar0 rEar0 - orientation lShoulder0 rShoulder0
         <= 180 ->
        d = orientation lEar0 rEar0 - orientation lShoulder0 rShoulder0).
Proof.
  apply (monomi_normalized oppositeLines); reflexivity.
Defined.

(** *** Further properties of the angles *)

Lemma atan2_deg_bound (py px : R) :
  -180 < Math_atan2 py px * (180 / PI) <= 180.
Proof.
  pose proof (Math_atan2_bound py px) as [Hlo Hhi].
  pose proof deg_pos as Hd. pose proof PI_deg as HP.
  split; nra.
Qed.

Lemma atan2_deg_abs (py px : R) :
  0 <= Rabs (Math_atan2 py px * (180 / PI)) <= 180.
Proof.
  pose proof (atan2_deg_bound py px) as [Hlo Hhi].
  split; [apply Rabs_pos |].
  apply Rabs_le. lra.
Qed.

Lemma angle3_range p q r v : angle3 p q r = Some v -> 0 <= v <= 180.
Proof.
  unfold angle3. destruct p, q, r; try discriminate.
  intros H. injection H as <-. apply calcAngle_range.
Qed.

(** X1.  Every metric that [calcKyudoAngles] gives lies in its range: the four
    joint angles and the two tilts between 0 and 180 degrees, the head
    rotation between -180 and 180 degrees. *)
Theorem calcKyudoAngles_ranges (landmarks : Landmarks) (v : R) :
  let r := calcKyudoAngles landmarks in
  (leftElbow r = Some v -> 0 <= v <= 180)
  /\ (rightElbow r = Some v -> 0 <= v <= 180)
  /\ (leftShoulder r = Some v -> 0 <= v <= 180)
  /\ (rightShoulder r = Some v -> 0 <= v <= 180)
  /\ (hipTilt r = Some v -> 0 <= v <= 180)
  /\ (spineTilt r = Some v -> 0 <= v <= 180)
  /\ (monomiAngle r = Some v -> -180 <= v <= 180).
Proof.
  cbv zeta. unfold calcKyudoAngles.
  cbn [leftElbow rightElbow leftShoulder rightShoulder hipTilt spineTilt
       monomiAngle].
  split; [apply angle3_range |]. split; [apply angle3_range |].
  split; [apply angle3_range |]. split; [apply angle3_range |].
  split; [| split].
  - destruct (lm landmarks 23), (lm landmarks 24); try discriminate.
    intros H. injection H as <-. apply atan2_deg_abs.
  - destruct (lm landmarks 11), (lm landmarks 12), (lm landmarks 23),
      (lm landmarks 24); try discriminate.
    intros H. injection H as <-. apply atan2_deg_abs.
  - destruct (lm landmarks 7) as [le |], (lm landmarks 8) as [re |],
      (lm landmarks 11) as [ls |], (lm landmarks 12) as [rs |];
      try discriminate.
    intros H. injection H as <-.
    rewrite Rmult_minus_distr_r.
    apply normalize180_spec.
    pose proof (atan2_deg_bound (y re - y le) (x re - x le)).
    pose proof (atan2_deg_bound (y rs - y ls) (x rs - x ls)). lra.
Qed.

(** X4.  The angle does not change when the picture is mirrored. *)
Theorem calcAngle_mirror (a b c : Landmark) :
  calcAngle (mirror a) (mirror b) (mirror c) = calcAngle a b c.
Proof.
  unfold calcAngle, mirror. cbn [x y].
  replace (1 - x a - (1 - x b)) with (- (x a - x b)) by ring.
  replace (1 - x c - (1 - x b)) with (- (x c - x b)) by ring.
  replace (- (x a - x b) * - (x c - x b)) with ((x a - x b) * (x c - x b))
    by ring.
  replace ((- (x a - x b)) ^ 2) with ((x a - x b) ^ 2) by ring.
  replace ((- (x c - x b)) ^ 2) with ((x c - x b) ^ 2) by ring.
  reflexivity.
Qed.

(** X7.  Level hips read 0 degrees only when the right hip is to the right of
    the left hip in the picture; with the left hip to the right, as for an
    archer who faces the camera, they read 180 degrees. *)
Theorem hipTilt_level (landmarks : Landmarks) (lh rh : Landmark) :
  lm landmarks 23 = Some lh -> lm landmarks 24 = Some rh ->
  y lh = y rh ->
  (x lh < x rh -> hipTilt (calcKyudoAngles landmarks) = Some 0)
  /\ (x rh < x lh -> hipTilt (calcKyudoAngles landmarks) = Some 180).
Proof.
  intros H23 H24 Hy. unfold calcKyudoAngles. cbn [hipTilt].
  rewrite H23, H24. split; intros Hx; f_equal.
  - rewrite Math_atan2_east by lra. rewrite Rmult_0_l. apply Rabs_R0.
  - rewrite Math_atan2_west by lra. rewrite PI_deg. apply Rabs_right. lra.
Qed.

Lemma hipTilt_level_witness :
  hipTilt (calcKyudoAngles (hipsOnly {| x := 6 / 10; y := 1 / 2 |}
                                     {| x := 4 / 10; y := 1 / 2 |}))
  = Some 180.
Proof.
  apply (hipTilt_level _ {| x := 6 / 10; y := 1 / 2 |}
                         {| x := 4 / 10; y := 1 / 2 |});
    solve [reflexivity | cbn [x y]; lra].
Defined.

(** X8.  The wrist-height offset is measured from a mouth height estimated
    between the nose and the middle of the ears: it is positive or zero
    when the right wrist is at or below both of them in the picture, and
    negative or zero when it is at or above both. *)
Theorem kuchiwariOffset_sign (landmarks : Landmarks) (n rw le re : Landmark) :
  lm landmarks 0 = Some n -> lm landmarks 16 = Some rw ->
  lm landmarks 7 = Some le -> lm landmarks 8 = Some re ->
  exists d : R,
    kuchiwariOffset (calcKyudoAngles landmarks) = Some d
    /\ (y n <= y rw -> (y le + y re) / 2 <= y rw -> 0 <= d)
    /\ (y rw <= y n -> y rw <= (y le + y re) / 2 -> d <= 0).
Proof.
  intros H0 H16 H7 H8. unfold calcKyudoAngles. cbn [kuchiwariOffset].
  rewrite H0, H16, H7, H8. eexists. split; [reflexivity |].
  split; intros; lra.
Qed.

Lemma kuchiwariOffset_sign_witness :
  exists d : R,
    kuchiwariOffset
      (calcKyudoAngles
         ([Some {| x := 1 / 2; y := 2 / 10 |}] ++ repeat None 6
          ++ [Some lEar0; Some rEar0] ++ repeat None 7
          ++ [Some {| x := 1 / 2; y := 4 / 10 |}])) = Some d
    /\ 0 <= d.
Proof.
  destruct (kuchiwariOffset_sign
              ([Some {| x := 1 / 2; y := 2 / 10 |}] ++ repeat None 6
               ++ [Some lEar0; Some rEar0] ++ repeat None 7
               ++ [Some {| x := 1 / 2; y := 4 / 10 |}])
              {| x := 1 / 2; y := 2 / 10 |} {| x := 1 / 2; y := 4 / 10 |}
              lEar0 rEar0 eq_refl eq_refl eq_refl eq_refl)
    as (d & Hd & Hpos & _).
  exists d. split; [exact Hd |]. apply Hpos; cbn [x y lEar0 rEar0]; lra.
Defined.

End GeometryFacts.

(** ** Form scoring *)

Module ScorerFacts.
Import Scorer.
Local Open Scope nat_scope.

Section Facts.

Variable Math_sqrt : Q -> Q.

Lemma items_evaluateForm (frames : list FrameAngleData) :
  items (evaluateForm Math_sqrt frames) = evalItems Math_sqrt frames.
Proof.
  destruct frames as [| f frames]; [reflexivity |].
  unfold evaluateForm.
  destruct (evalItems Math_sqrt (f :: frames)); reflexivity.
Qed.

Lemma floor_mul_055 (n : nat) : floor_mul n 0.55 = n * 11 / 20.
Proof.
  unfold floor_mul, Qfloor, Qmult, inject_Z. cbn [Qnum Qden].
  change (Z.pos (1 * 100)) with (20 * 5)%Z.
  replace (Z.of_nat n * 55)%Z with (Z.of_nat n * 11 * 5)%Z by ring.
  rewrite Z.div_mul_cancel_r by lia.
  rewrite <- (Nat2Z.id (n * 11 / 20)). f_equal.
  rewrite Nat2Z.inj_div, Nat2Z.inj_mul. reflexivity.
Qed.

(** The last 45% of [n] samples are more than 5 exactly from 12 samples on. *)
Lemma late_slice_guard (v : list Q) :
  (5 <? length (skipn (floor_mul (length v) 0.55) v)) = (12 <=? length v).
Proof.
  rewrite length_skipn, floor_mul_055.
  set (n := length v).
  pose proof (Nat.div_mod_eq (n * 11) 20) as E.
  pose proof (Nat.mod_upper_bound (n * 11) 20 ltac:(lia)) as B.
  destruct (Nat.leb_spec 12 n);
    destruct (Nat.ltb_spec 5 (n - n * 11 / 20)); try reflexivity; lia.
Qed.

(** Each criterion pushes nothing, or one item under its own label. *)

Ltac one_item c :=
  cbv beta delta [elbowExtension drawElbowSettling symmetry hipLevel
    spineVertical holdStability drawSmoothness monomi kuchiwari isNaN item
    hasItem] zeta;
  repeat match goal with
    | |- context [(?a <? ?b)%nat] => destruct (a <? b)%nat; cbn [andb negb]
    end;
  cbn [existsb label orb]; destruct c; reflexivity.

Lemma has_elbowExtension c v :
  hasItem c (elbowExtension v)
  = Criterion_eqb c ElbowExtension && (5 <? length v).
Proof. one_item c. Qed.

Lemma has_drawElbowSettling c v :
  hasItem c (drawElbowSettling v)
  = Criterion_eqb c DrawElbowSettling && (5 <? length v).
Proof. one_item c. Qed.

Lemma has_symmetry c v w :
  hasItem c (symmetry Math_sqrt v w)
  = Criterion_eqb c Symmetry && ((5 <? length v) && (5 <? length w)).
Proof. one_item c. Qed.

Lemma has_hipLevel c v :
  hasItem c (hipLevel Math_sqrt v) = Criterion_eqb c HipLevel && (5 <? length v).
Proof. one_item c. Qed.

Lemma has_spineVertical c v :
  hasItem c (spineVertical Math_sqrt v)
  = Criterion_eqb c SpineVertical && (5 <? length v).
Proof. one_item c. Qed.

Lemma has_holdStability c n v w :
  hasItem c (holdStability Math_sqrt n v w)
  = Criterion_eqb c HoldStability && ((12 <=? length v) && (12 <=? length w)).
Proof.
  rewrite <- (late_slice_guard v), <- (late_slice_guard w). one_item c.
Qed.

Lemma has_drawSmoothness c v :
  hasItem c (drawSmoothness Math_sqrt v)
  = Criterion_eqb c DrawSmoothness && (10 <? length v).
Proof. one_item c. Qed.

Lemma has_monomi c v :
  hasItem c (monomi Math_sqrt v) = Criterion_eqb c Monomi && (5 <? length v).
Proof. one_item c. Qed.

Lemma has_kuchiwari c v :
  hasItem c (kuchiwari Math_sqrt v)
  = Criterion_eqb c Kuchiwari && (5 <? length v).
Proof. one_item c. Qed.

Lemma hasItem_app c (l1 l2 : list EvalItem) :
  hasItem c (l1 ++ l2) = hasItem c l1 || hasItem c l2.
Proof. apply existsb_app. Qed.

Lemma reported_evalItems c (frames : list FrameAngleData) :
  reported c (evaluateForm Math_sqrt frames)
  = hasItem c (evalItems Math_sqrt frames).
Proof. unfold reported. rewrite items_evaluateForm. reflexivity. Qed.

Lemma hasItem_evalItems c (frames : list FrameAngleData) :
  hasItem c (evalItems Math_sqrt frames)
  = Criterion_eqb c ElbowExtension && (5 <? valid leftElbow frames)
    || Criterion_eqb c DrawElbowSettling && (5 <? valid rightElbow frames)
    || Criterion_eqb c Symmetry
       && ((5 <? valid leftShoulder frames) && (5 <? valid rightShoulder frames))
    || Criterion_eqb c HipLevel && (5 <? valid hipTilt frames)
    || Criterion_eqb c SpineVertical && (5 <? valid spineTilt frames)
    || Criterion_eqb c HoldStability
       && ((12 <=? valid leftElbow frames) && (12 <=? valid rightElbow frames))
    || Criterion_eqb c DrawSmoothness && (10 <? valid leftElbow frames)
    || Criterion_eqb c Monomi && (5 <? valid monomiAngle frames)
    || Criterion_eqb c Kuchiwari && (5 <? valid kuchiwariOffset frames).
Proof.
  unfold evalItems, valid. cbv zeta.
  rewrite !hasItem_app.
  rewrite has_elbowExtension, has_drawElbowSettling, has_symmetry,
    has_hipLevel, has_spineVertical, has_holdStability, has_drawSmoothness,
    has_monomi, has_kuchiwari.
  rewrite !orb_assoc. reflexivity.
Qed.

(** C3, amended.  A criterion is in the report exactly when its own guard
    holds, and is left out otherwise: more than 5 valid samples of its
    metric for the elbow-extension, draw-elbow, hip, spine, head-rotation
    and wrist-height criteria; more than 5 valid samples of each shoulder
    for the symmetry criterion; more than 5 samples in the last 45% of the
    valid left-elbow samples and of the valid right-elbow samples, that is
    at least 12 valid samples of each, for the hold-stability criterion;
    and more than 10 valid left-elbow samples for the draw-smoothness
    criterion. *)
Theorem criteria_reported_by_guard (frames : list FrameAngleData) :
  let r := evaluateForm Math_sqrt frames in
  reported ElbowExtension r = (5 <? valid leftElbow frames)
  /\ reported DrawElbowSettling r = (5 <? valid rightElbow frames)
  /\ reported Symmetry r
     = (5 <? valid leftShoulder frames) && (5 <? valid rightShoulder frames)
  /\ reported HipLevel r = (5 <? valid hipTilt frames)
  /\ reported SpineVertical r = (5 <? valid spineTilt frames)
  /\ reported HoldStability r
     = (12 <=? valid leftElbow frames) && (12 <=? valid rightElbow frames)
  /\ reported DrawSmoothness r = (10 <? valid leftElbow frames)
  /\ reported Monomi r = (5 <? valid monomiAngle frames)
  /\ reported Kuchiwari r = (5 <? valid kuchiwariOffset frames).
Proof.
  cbv zeta. rewrite !reported_evalItems, !hasItem_evalItems.
  cbn [Criterion_eqb andb orb]. rewrite !orb_false_r.
  repeat split; reflexivity.
Qed.

(** C3, as stated, fails: six frames that carry a left elbow angle give the
    draw-smoothness criterion 6 valid samples, more than 5, and the report
    holds the elbow-extension item alone. *)
Lemma smoothness_needs_more_than_ten :
  valid leftElbow sixElbows = 6
  /\ map label (items (evaluateForm sqrt_fixed sixElbows)) = [ElbowExtension]
  /\ reported DrawSmoothness (evaluateForm sqrt_fixed sixElbows) = false.
Proof. vm_compute. repeat split; reflexivity. Qed.

(** *** The overall score and the rank *)

Lemma scoreSum_from (its : list EvalItem) (acc : Z) :
  fold_left (fun a b => (a + score b)%Z) its acc = (acc + sumScores its)%Z.
Proof.
  revert acc. induction its as [| it its IH]; intros acc; cbn.
  - lia.
  - rewrite IH. unfold sumScores. cbn. lia.
Qed.

Lemma scoreSum_sumScores (its : list EvalItem) : scoreSum its = sumScores its.
Proof. unfold scoreSum. rewrite scoreSum_from. lia. Qed.

(** [Math.round] of a ratio of integers, in integer arithmetic. *)
Lemma Math_round_ratio (s n : Z) :
  (0 < n)%Z -> Math_round (inject_Z s / inject_Z n) = ((2 * s + n) / (2 * n))%Z.
Proof.
  intros Hn. destruct n as [| p | p]; try lia.
  unfold Math_round, Qfloor, Qplus, Qdiv, Qmult, Qinv, inject_Z.
  cbn [Qnum Qden]. f_equal; lia.
Qed.

(** The rounded ratio is the integer nearest to [s / n], a tie going up. *)
Lemma Math_round_nearest (s n : Z) :
  (0 < n)%Z ->
  let t := Math_round (inject_Z s / inject_Z n) in
  (2 * s - n < 2 * n * t <= 2 * s + n)%Z.
Proof.
  intros Hn t. subst t. rewrite Math_round_ratio by exact Hn.
  pose proof (Z.div_mod (2 * s + n) (2 * n) ltac:(lia)) as E.
  pose proof (Z.mod_pos_bound (2 * s + n) (2 * n) ltac:(lia)) as B.
  lia.
Qed.

Lemma rankOf_bands (t : Z) :
  ((90 <= t)%Z -> rankOf t = Dan4to5)
  /\ ((78 <= t < 90)%Z -> rankOf t = Dan3)
  /\ ((65 <= t < 78)%Z -> rankOf t = Dan2)
  /\ ((52 <= t < 65)%Z -> rankOf t = Dan1)
  /\ ((38 <= t < 52)%Z -> rankOf t = Kyu)
  /\ ((t < 38)%Z -> rankOf t = NeedsBasics).
Proof.
  unfold rankOf.
  destruct (Z.leb_spec 90 t); destruct (Z.leb_spec 78 t);
    destruct (Z.leb_spec 65 t); destruct (Z.leb_spec 52 t);
    destruct (Z.leb_spec 38 t);
    repeat split; intros; solve [reflexivity | lia].
Qed.

(** C5.  In a report with at least one item, the overall score is
    [Math.round] of the sum of the item scores divided by their number,
    which is the integer nearest to that mean (a tie going up), and the
    rank is read off the fixed bands of the overall score: 90 and more, 78
    to 89, 65 to 77, 52 to 64, 38 to 51, below 38. *)
Theorem total_is_rounded_mean (frames : list FrameAngleData) :
  items (evaluateForm Math_sqrt frames) <> [] ->
  let r := evaluateForm Math_sqrt frames in
  let n := Z.of_nat (length (items r)) in
  let s := sumScores (items r) in
  total r = Math_round (inject_Z s / inject_Z n)
  /\ (2 * s - n < 2 * n * total r <= 2 * s + n)%Z
  /\ ((90 <= total r)%Z -> rank r = Dan4to5)
  /\ ((78 <= total r < 90)%Z -> rank r = Dan3)
  /\ ((65 <= total r < 78)%Z -> rank r = Dan2)
  /\ ((52 <= total r < 65)%Z -> rank r = Dan1)
  /\ ((38 <= total r < 52)%Z -> rank r = Kyu)
  /\ ((total r < 38)%Z -> rank r = NeedsBasics).
Proof.
  intros Hne. cbv zeta.
  assert (Hlen : (0 < Z.of_nat (length (items (evaluateForm Math_sqrt frames))))%Z).
  { destruct (items (evaluateForm Math_sqrt frames)); [contradiction | cbn; lia]. }
  assert (Ht : total (evaluateForm Math_sqrt frames)
               = Math_round
                   (inject_Z (sumScores (items (evaluateForm Math_sqrt frames)))
                    / inject_Z (Z.of_nat
                        (length (items (evaluateForm Math_sqrt frames)))))
             /\ rank (evaluateForm Math_sqrt frames)
                = rankOf (total (evaluateForm Math_sqrt frames))).
  { revert Hne. unfold evaluateForm.
    destruct frames as [| f frames]; [intros H; contradiction H; reflexivity |].
    destruct (evalItems Math_sqrt (f :: frames)) as [| it its] eqn:E;
      [intros H; contradiction H; reflexivity |].
    intros _. cbn [total rank items]. rewrite scoreSum_sumScores.
    split; reflexivity. }
  destruct Ht as [Ht Hr].
  split; [exact Ht |].
  split; [rewrite Ht at 1 2; apply Math_round_nearest; exact Hlen |].
  rewrite Hr. apply rankOf_bands.
Qed.

(** C6.  The empty sequence gets the neutral report: overall score 0, the
    unrated rank and no items.  [evaluateForm] is a total function, so
    nothing is raised. *)
Theorem evaluateForm_empty :
  evaluateForm Math_sqrt [] = {| total := 0; rank := Unrated; items := [] |}.
Proof. reflexivity. Qed.

(** *** No criterion reaches its guard *)

Lemma evaluateForm_no_items (frames : list FrameAngleData) :
  evalItems Math_sqrt frames = [] -> evaluateForm Math_sqrt frames = neutral.
Proof.
  intros H. unfold evaluateForm. destruct frames; [reflexivity |].
  rewrite H. reflexivity.
Qed.

Ltac no_samples :=
  intros; cbv beta delta [elbowExtension drawElbowSettling symmetry hipLevel
    spineVertical holdStability drawSmoothness monomi kuchiwari] zeta;
  rewrite ?late_slice_guard;
  repeat match goal with
    | |- context [(?a <? ?b)%nat] =>
        destruct (Nat.ltb_spec a b); cbn [andb]; try lia
    | |- context [(?a <=? ?b)%nat] =>
        destruct (Nat.leb_spec a b); cbn [andb]; try lia
    end;
  try reflexivity.

Lemma elbowExtension_none v : length v <= 5 -> elbowExtension v = [].
Proof. no_samples. Qed.

Lemma drawElbowSettling_none v : length v <= 5 -> drawElbowSettling v = [].
Proof. no_samples. Qed.

Lemma symmetry_none v w :
  length v <= 5 \/ length w <= 5 -> symmetry Math_sqrt v w = [].
Proof. no_samples. Qed.

Lemma hipLevel_none v : length v <= 5 -> hipLevel Math_sqrt v = [].
Proof. no_samples. Qed.

Lemma spineVertical_none v : length v <= 5 -> spineVertical Math_sqrt v = [].
Proof. no_samples. Qed.

Lemma holdStability_none n v w :
  length v <= 5 -> holdStability Math_sqrt n v w = [].
Proof. no_samples. Qed.

Lemma drawSmoothness_none v : length v <= 5 -> drawSmoothness Math_sqrt v = [].
Proof. no_samples. Qed.

Lemma monomi_none v : length v <= 5 -> monomi Math_sqrt v = [].
Proof. no_samples. Qed.

Lemma kuchiwari_none v : length v <= 5 -> kuchiwari Math_sqrt v = [].
Proof. no_samples. Qed.

(** C10.  A sequence that is not empty but in which no criterion has its
    samples (at most 5 valid samples of every metric; for the two
    shoulders, of at least one of them) gets the same neutral report as
    the empty sequence: overall score 0, the unrated rank, no items. *)
Theorem evaluateForm_no_criterion (frames : list FrameAngleData) :
  frames <> [] ->
  valid leftElbow frames <= 5 ->
  valid rightElbow frames <= 5 ->
  valid leftShoulder frames <= 5 \/ valid rightShoulder frames <= 5 ->
  valid hipTilt frames <= 5 ->
  valid spineTilt frames <= 5 ->
  valid monomiAngle frames <= 5 ->
  valid kuchiwariOffset frames <= 5 ->
  evaluateForm Math_sqrt frames
  = {| total := 0; rank := Unrated; items := [] |}.
Proof.
  unfold valid. intros _ Hle Hre Hsh Hhip Hsp Hmo Hk.
  apply evaluateForm_no_items. unfold evalItems. cbv zeta.
  rewrite elbowExtension_none, drawElbowSettling_none, symmetry_none,
    hipLevel_none, spineVertical_none, holdStability_none,
    drawSmoothness_none, monomi_none, kuchiwari_none by assumption.
  reflexivity.
Qed.

(** *** Scores stay on the scale *)

Lemma clamp_bounds (v lo hi : Q) : (lo <= hi -> lo <= clamp v lo hi <= hi)%Q.
Proof.
  intros H. unfold clamp. split.
  - apply Q.min_glb; [exact H | apply Q.le_max_l].
  - apply Q.le_min_l.
Qed.

Lemma clamp_below (v lo hi c : Q) :
  (v <= c -> lo <= c -> clamp v lo hi <= c)%Q.
Proof.
  intros Hv Hlo. unfold clamp.
  apply Qle_trans with (Qmax lo v); [apply Q.le_min_r |].
  apply Q.max_lub; assumption.
Qed.

Lemma Math_round_le (q : Q) (c : Z) :
  (q <= inject_Z c)%Q -> (Math_round q <= c)%Z.
Proof.
  intros H. unfold Math_round.
  assert (E : Qfloor (inject_Z c + (1 # 2)) = c).
  { unfold Qfloor, Qplus, inject_Z. cbn [Qnum Qden].
    change (Z.pos (1 * 2)) with 2%Z.
    pose proof (Z.div_mod (c * 2 + 1 * 1) 2 ltac:(lia)) as D.
    pose proof (Z.mod_pos_bound (c * 2 + 1 * 1) 2 ltac:(lia)) as B. lia. }
  rewrite <- E. apply Qfloor_resp_le. apply Qplus_le_l. exact H.
Qed.

Lemma Math_round_ge (q : Q) : (0 <= q)%Q -> (0 <= Math_round q)%Z.
Proof.
  intros H. unfold Math_round. change 0%Z with (Qfloor 0).
  apply Qfloor_resp_le. Lqa.lra.
Qed.

Lemma item_score_range l raw c : (0 <= score (item l raw c) <= 100)%Z.
Proof.
  unfold item. cbn [score].
  destruct (clamp_bounds raw 0 100 ltac:(discriminate)) as [H0 H1].
  split; [apply Math_round_ge; exact H0 | apply Math_round_le; exact H1].
Qed.

Ltac scores_on_scale :=
  cbv beta delta [elbowExtension drawElbowSettling symmetry hipLevel
    spineVertical holdStability drawSmoothness monomi kuchiwari isNaN] zeta;
  repeat match goal with
    | |- context [(?a <? ?b)%nat] => destruct (a <? b)%nat; cbn [andb negb]
    end;
  first [ apply Forall_nil
        | apply Forall_cons; [apply item_score_range | apply Forall_nil] ].

Lemma evalItems_on_scale (frames : list FrameAngleData) :
  Forall (fun it => (0 <= score it <= 100)%Z) (evalItems Math_sqrt frames).
Proof.
  unfold evalItems. cbv zeta.
  repeat (apply Forall_app; split); scores_on_scale.
Qed.

Lemma sumScores_on_scale (its : list EvalItem) :
  Forall (fun it => (0 <= score it <= 100)%Z) its ->
  (0 <= sumScores its <= 100 * Z.of_nat (length its))%Z.
Proof.
  induction 1 as [| it its Hit _ IH]; unfold sumScores in *; cbn [map fold_right length].
  - lia.
  - rewrite Nat2Z.inj_succ. lia.
Qed.

(** X9.  Every item of a report scores between 0 and 100, and so does the
    overall score. *)
Theorem report_on_scale (frames : list FrameAngleData) :
  let r := evaluateForm Math_sqrt frames in
  Forall (fun it => (0 <= score it <= 100)%Z) (items r)
  /\ (0 <= total r <= 100)%Z.
Proof.
  cbv zeta. split.
  - rewrite items_evaluateForm. apply evalItems_on_scale.
  - pose proof (evalItems_on_scale frames) as F.
    unfold evaluateForm. destruct frames as [| f frames]; [cbn; lia |].
    destruct (evalItems Math_sqrt (f :: frames)) as [| it its]; [cbn; lia |].
    cbn [total]. rewrite scoreSum_sumScores.
    apply sumScores_on_scale in F.
    set (S := sumScores (it :: its)) in *.
    set (n := Z.of_nat (length (it :: its))) in *.
    assert (Hn : (0 < n)%Z) by (unfold n; cbn [length]; lia).
    rewrite Math_round_ratio by exact Hn.
    split.
    + apply Z.div_pos; lia.
    + assert (((2 * S + n) / (2 * n) < 101)%Z)
        by (apply Z.div_lt_upper_bound; lia).
      lia.
Qed.

(** *** The shape of a report *)

Ltac own_label :=
  cbv beta delta [elbowExtension drawElbowSettling symmetry hipLevel
    spineVertical holdStability drawSmoothness monomi kuchiwari isNaN item]
    zeta;
  repeat match goal with
    | |- context [(?a <? ?b)%nat] => destruct (a <? b)%nat; cbn [andb negb]
    end;
  reflexivity.

Lemma labels_elbowExtension v :
  map label (elbowExtension v)
  = if 5 <? length v then [ElbowExtension] else [].
Proof. own_label. Qed.

Lemma labels_drawElbowSettling v :
  map label (drawElbowSettling v)
  = if 5 <? length v then [DrawElbowSettling] else [].
Proof. own_label. Qed.

Lemma labels_symmetry v w :
  map label (symmetry Math_sqrt v w)
  = if (5 <? length v) && (5 <? length w) then [Symmetry] else [].
Proof. own_label. Qed.

Lemma labels_hipLevel v :
  map label (hipLevel Math_sqrt v) = if 5 <? length v then [HipLevel] else [].
Proof. own_label. Qed.

Lemma labels_spineVertical v :
  map label (spineVertical Math_sqrt v)
  = if 5 <? length v then [SpineVertical] else [].
Proof. own_label. Qed.

Lemma labels_holdStability n v w :
  map label (holdStability Math_sqrt n v w)
  = if (12 <=? length v) && (12 <=? length w) then [HoldStability] else [].
Proof.
  rewrite <- (late_slice_guard v), <- (late_slice_guard w). own_label.
Qed.

Lemma labels_drawSmoothness v :
  map label (drawSmoothness Math_sqrt v)
  = if 10 <? length v then [DrawSmoothness] else [].
Proof. own_label. Qed.

Lemma labels_monomi v :
  map label (monomi Math_sqrt v) = if 5 <? length v then [Monomi] else [].
Proof. own_label. Qed.

Lemma labels_kuchiwari v :
  map label (kuchiwari Math_sqrt v) = if 5 <? length v then [Kuchiwari] else [].
Proof. own_label. Qed.

(** X10.  The items of a report are those of the criteria it reports, one item
    each, in the fixed order of the criteria; a report has at most nine
    items. *)
Theorem items_in_criteria_order (frames : list FrameAngleData) :
  let r := evaluateForm Math_sqrt frames in
  map label (items r) = filter (fun c => reported c r) allCriteria
  /\ length (items r) <= 9.
Proof.
  cbv zeta.
  assert (E : map label (items (evaluateForm Math_sqrt frames))
              = filter (fun c => reported c (evaluateForm Math_sqrt frames))
                       allCriteria).
  { unfold allCriteria. cbn [filter].
    rewrite !reported_evalItems, !hasItem_evalItems, items_evaluateForm.
    cbn [Criterion_eqb andb orb]. rewrite !orb_false_r.
    unfold evalItems, valid. cbv zeta. rewrite !map_app.
    rewrite labels_elbowExtension, labels_drawElbowSettling, labels_symmetry,
      labels_hipLevel, labels_spineVertical, labels_holdStability,
      labels_drawSmoothness, labels_monomi, labels_kuchiwari.
    repeat match goal with
      | |- context [if ?b then _ else _] => destruct b
      end; reflexivity. }
  split; [exact E |].
  rewrite <- (length_map label), E.
  change 9 with (length allCriteria). apply filter_length_le.
Qed.

Lemma rankOf_rated (t : Z) : rankOf t <> Unrated.
Proof.
  unfold rankOf.
  repeat match goal with
    | |- context [if ?b then _ else _] => destruct b
    end; discriminate.
Qed.

(** X11.  A report carries the unrated rank exactly when it has no items: the
    score bands never give it. *)
Theorem unrated_iff_no_items (frames : list FrameAngleData) :
  rank (evaluateForm Math_sqrt frames) = Unrated
  <-> items (evaluateForm Math_sqrt frames) = [].
Proof.
  unfold evaluateForm. destruct frames as [| f frames]; [split; reflexivity |].
  destruct (evalItems Math_sqrt (f :: frames)) as [| it its];
    [split; reflexivity |].
  cbn [rank items]. split; intros H; [| discriminate].
  exfalso. exact (rankOf_rated _ H).
Qed.

Lemma nn_length_le (v : list (option Q)) : length (nn v) <= length v.
Proof.
  induction v as [| [q |] v IH]; cbn; lia.
Qed.

Lemma valid_le_length metric (frames : list FrameAngleData) :
  valid metric frames <= length frames.
Proof.
  unfold valid. rewrite <- (length_map metric frames). apply nn_length_le.
Qed.

(** X12.  A sequence of at most five frames is never rated, whatever it holds. *)
Theorem evaluateForm_short (frames : list FrameAngleData) :
  length frames <= 5 ->
  evaluateForm Math_sqrt frames
  = {| total := 0; rank := Unrated; items := [] |}.
Proof.
  intros Hlen.
  assert (B : forall metric, length (nn (map metric frames)) <= 5).
  { intros metric. pose proof (valid_le_length metric frames) as H.
    unfold valid in H. lia. }
  apply evaluateForm_no_items. unfold evalItems. cbv zeta.
  rewrite elbowExtension_none, drawElbowSettling_none, symmetry_none,
    hipLevel_none, spineVertical_none, holdStability_none,
    drawSmoothness_none, monomi_none, kuchiwari_none
    by first [apply B | left; apply B].
  reflexivity.
Qed.

(** *** The elbow-extension criterion *)

Lemma fold_Qmax_ge (t : list Q) (h : Q) : (h <= fold_left Qmax t h)%Q.
Proof.
  revert h. induction t as [| a t IH]; intros h; cbn.
  - apply Qle_refl.
  - apply Qle_trans with (Qmax h a); [apply Q.le_max_l | apply IH].
Qed.

Lemma fold_Qmax_in (t : list Q) (h q : Q) :
  In q t -> (q <= fold_left Qmax t h)%Q.
Proof.
  revert h. induction t as [| a t IH]; intros h Hin; [contradiction |].
  cbn. destruct Hin as [-> | Hin].
  - apply Qle_trans with (Qmax h q); [apply Q.le_max_r | apply fold_Qmax_ge].
  - apply IH. exact Hin.
Qed.

Lemma fold_Qmax_lub (t : list Q) (h hi : Q) :
  (h <= hi)%Q -> Forall (fun q => (q <= hi)%Q) t ->
  (fold_left Qmax t h <= hi)%Q.
Proof.
  revert h. induction t as [| a t IH]; intros h Hh Hall; cbn; [exact Hh |].
  inversion Hall as [| ? ? Ha Ht]; subst.
  apply IH; [apply Q.max_lub; assumption | exact Ht].
Qed.

(** [Math.max(...v)] is at least every element, and at most every bound of
    the elements. *)
Lemma Math_max_list_ge (v : list Q) (q : Q) :
  In q v -> (q <= Math_max_list v)%Q.
Proof.
  destruct v as [| h t]; [contradiction |]. cbn.
  intros [-> | Hin]; [apply fold_Qmax_ge | apply fold_Qmax_in; exact Hin].
Qed.

Lemma Math_max_list_le (v : list Q) (hi : Q) :
  v <> [] -> Forall (fun q => (q <= hi)%Q) v -> (Math_max_list v <= hi)%Q.
Proof.
  destruct v as [| h t]; [contradiction |]. intros _ Hall. cbn.
  inversion Hall; subst. apply fold_Qmax_lub; assumption.
Qed.

Lemma Qle_bool_true (a b : Q) : (a <= b)%Q -> Qle_bool a b = true.
Proof. apply Qle_bool_iff. Qed.

Lemma Qle_bool_false (a b : Q) : (b < a)%Q -> Qle_bool a b = false.
Proof.
  intros H. destruct (Qle_bool a b) eqn:E; [| reflexivity].
  apply Qle_bool_iff in E. exfalso. exact (Qlt_not_le _ _ H E).
Qed.

(** X13.  With more than five valid left-elbow samples, none above 172 degrees
    and at least one of 160 degrees or more, the report opens with the
    elbow-extension item at the full score and the positive comment. *)
Theorem elbowExtension_ideal (frames : list FrameAngleData) :
  5 < valid leftElbow frames ->
  Forall (fun q => (q <= 172)%Q) (nn (map leftElbow frames)) ->
  Exists (fun q => (160 <= q)%Q) (nn (map leftElbow frames)) ->
  exists rest : list EvalItem,
    items (evaluateForm Math_sqrt frames)
    = {| label := ElbowExtension; score := 100; comment := Good |} :: rest.
Proof.
  unfold valid. intros Hn Hhi Hlo.
  rewrite items_evaluateForm. unfold evalItems. cbv zeta.
  set (v := nn (map leftElbow frames)) in *.
  assert (H172 : (Math_max_list v <= 172)%Q).
  { apply Math_max_list_le; [| exact Hhi]. intros E. rewrite E in Hn. cbn in Hn. lia. }
  assert (H160 : (160 <= Math_max_list v)%Q).
  { apply Exists_exists in Hlo as (q & Hin & Hq).
    apply Qle_trans with q; [exact Hq | apply Math_max_list_ge; exact Hin]. }
  unfold elbowExtension.
  apply Nat.ltb_lt in Hn. rewrite Hn.
  rewrite (Qle_bool_true _ _ H160), (Qle_bool_true _ _ H172).
  cbn [andb app]. eexists. reflexivity.
Qed.

(** X14.  With more than five valid left-elbow samples, a single sample above
    178 degrees is enough for the elbow-extension item to score 40 with the
    negative comment. *)
Theorem elbowExtension_overstretched (frames : list FrameAngleData) :
  5 < valid leftElbow frames ->
  Exists (fun q => (178 < q)%Q) (nn (map leftElbow frames)) ->
  exists rest : list EvalItem,
    items (evaluateForm Math_sqrt frames)
    = {| label := ElbowExtension; score := 40; comment := Bad |} :: rest.
Proof.
  unfold valid. intros Hn Hex.
  rewrite items_evaluateForm. unfold evalItems. cbv zeta.
  set (v := nn (map leftElbow frames)) in *.
  assert (H178 : (178 < Math_max_list v)%Q).
  { apply Exists_exists in Hex as (q & Hin & Hq).
    apply Qlt_le_trans with q; [exact Hq | apply Math_max_list_ge; exact Hin]. }
  unfold elbowExtension.
  apply Nat.ltb_lt in Hn. rewrite Hn.
  rewrite (Qle_bool_false (Math_max_list v) 172) by Lqa.lra.
  rewrite (Qle_bool_false (Math_max_list v) 178) by exact H178.
  rewrite (Qle_bool_true 160 (Math_max_list v)) by Lqa.lra.
  rewrite (Qle_bool_true 150 (Math_max_list v)) by Lqa.lra.
  cbn [andb negb app]. eexists. reflexivity.
Qed.

(** *** The hold-stability criterion and the length of the clip *)

Lemma In_hasItem (it : EvalItem) (its : list EvalItem) :
  In it its -> hasItem (label it) its = true.
Proof.
  intros Hin. unfold hasItem. apply existsb_exists. exists it.
  split; [exact Hin | destruct (label it); reflexivity].
Qed.

Lemma stddev_nonneg (v : list Q) :
  (forall q, (0 <= Math_sqrt q)%Q) -> (0 <= stddev Math_sqrt v)%Q.
Proof.
  intros H. unfold stddev.
  destruct (length v <? 2); [apply Qle_refl | apply H].
Qed.

(** [kaiSec] stays below 1.5 up to 136 frames. *)
Lemma kaiSec_short (n : nat) :
  n <= 136 ->
  Qle_bool 3 (inject_Z (Z.of_nat n) / 30 * 0.33) = false
  /\ Qle_bool 1.5 (inject_Z (Z.of_nat n) / 30 * 0.33) = false.
Proof.
  intros Hn.
  assert (H : (inject_Z (Z.of_nat n) <= 136)%Q).
  { change 136%Q with (inject_Z 136). rewrite <- Zle_Qle. lia. }
  split; apply Qle_bool_false;
    setoid_replace (inject_Z (Z.of_nat n) / 30 * 0.33)%Q
      with (inject_Z (Z.of_nat n) * (33 # 3000))%Q by field; Lqa.lra.
Qed.

(** X16.  In a sequence of at most 136 frames the estimated hold is shorter than
    1.5 seconds: a hold-stability item, if the report has one, carries the
    negative comment, and it scores at most 75 as long as [Math.sqrt] gives
    no negative number. *)
Theorem holdStability_short_clip (frames : list FrameAngleData)
  (it : EvalItem) :
  length frames <= 136 ->
  In it (items (evaluateForm Math_sqrt frames)) ->
  label it = HoldStability ->
  comment it = Bad
  /\ ((forall q, (0 <= Math_sqrt q)%Q) -> (score it <= 75)%Z).
Proof.
  intros Hlen Hin Hlab. rewrite items_evaluateForm in Hin.
  unfold evalItems in Hin. cbv zeta in Hin.
  repeat (apply in_app_or in Hin; destruct Hin as [Hin | Hin]);
    try solve
      [ apply In_hasItem in Hin; rewrite Hlab in Hin;
        rewrite ?has_elbowExtension, ?has_drawElbowSettling, ?has_symmetry,
          ?has_hipLevel, ?has_spineVertical, ?has_drawSmoothness,
          ?has_monomi, ?has_kuchiwari in Hin;
        cbn [Criterion_eqb andb] in Hin; discriminate ].
  cbv beta zeta delta [holdStability] in Hin.
  destruct (kaiSec_short (length frames) Hlen) as [K3 K15].
  rewrite K3, K15 in Hin.
  match type of Hin with
  | In _ (if ?g then _ else _) => destruct g; [| contradiction]
  end.
  destruct Hin as [<- | []]. unfold item. cbn [comment score].
  change (Qeq_bool (-25) 0) with false.
  change (Qeq_bool (-25) (-25)) with true.
  rewrite andb_false_r. split; [reflexivity |].
  intros Hs. apply Math_round_le.
  match goal with
  | |- context [((stddev Math_sqrt ?a + stddev Math_sqrt ?b) / 2)%Q] =>
      pose proof (stddev_nonneg a Hs); pose proof (stddev_nonneg b Hs);
      assert (0 <= (stddev Math_sqrt a + stddev Math_sqrt b) / 2)%Q
        by (apply Qle_shift_div_l; Lqa.lra);
      set (avgStd := ((stddev Math_sqrt a + stddev Math_sqrt b) / 2)%Q) in *
  end.
  apply clamp_below; [| discriminate].
  apply clamp_below; [| discriminate].
  change (inject_Z 75) with 75%Q. Lqa.lra.
Qed.

End Facts.

Lemma total_is_rounded_mean_witness :
  total (evaluateForm sqrt_fixed twentyFull) = 94%Z
  /\ rank (evaluateForm sqrt_fixed twentyFull) = Dan4to5.
Proof.
  assert (Hne : items (evaluateForm sqrt_fixed twentyFull) <> [])
    by (vm_compute; discriminate).
  destruct (total_is_rounded_mean sqrt_fixed twentyFull Hne)
    as (Ht & _ & Hr & _).
  split; [rewrite Ht; vm_compute; reflexivity |].
  apply Hr. rewrite Ht. vm_compute. discriminate.
Defined.

Lemma evaluateForm_no_criterion_witness :
  evaluateForm sqrt_fixed fiveFull
  = {| total := 0; rank := Unrated; items := [] |}.
Proof.
  apply (evaluateForm_no_criterion sqrt_fixed fiveFull);
    solve [discriminate | vm_compute; lia | left; vm_compute; lia].
Defined.

Lemma evaluateForm_short_witness :
  evaluateForm sqrt_fixed (map fullFrame (seq 0 3))
  = {| total := 0; rank := Unrated; items := [] |}.
Proof.
  apply evaluateForm_short. cbn. lia.
Defined.

Lemma elbowExtension_ideal_witness :
  exists rest : list EvalItem,
    items (evaluateForm sqrt_fixed twentyFull)
    = {| label := ElbowExtension; score := 100; comment := Good |} :: rest.
Proof.
  apply elbowExtension_ideal.
  - vm_compute. lia.
  - cbn. repeat constructor; discriminate.
  - cbn. constructor. discriminate.
Defined.

Lemma elbowExtension_overstretched_witness :
  exists rest : list EvalItem,
    items (evaluateForm sqrt_fixed
             (elbowOnly 0 179 :: sixElbows))
    = {| label := ElbowExtension; score := 40; comment := Bad |} :: rest.
Proof.
  apply elbowExtension_overstretched.
  - vm_compute. lia.
  - cbn. constructor. reflexivity.
Defined.

Lemma holdStability_short_clip_witness :
  comment {| label := HoldStability; score := 75; comment := Bad |} = Bad.
Proof.
  apply (holdStability_short_clip sqrt_fixed twentyFull
           {| label := HoldStability; score := 75; comment := Bad |}).
  - cbn. lia.
  - vm_compute. do 5 right. left. reflexivity.
  - reflexivity.
Defined.

End ScorerFacts.

(** ** The chart data *)

Module ChartFacts.
Import Scorer Chart.
Local Open Scope nat_scope.

(** [ceil_div n m] steps of [m] cover [n]. *)
Lemma ceil_div_covers (n m : nat) : 0 < m -> n <= m * ceil_div n m.
Proof.
  intros Hm. unfold ceil_div.
  set (q := (inject_Z (Z.of_nat n) / inject_Z (Z.of_nat m))%Q).
  pose proof (Qle_ceiling q) as Hc.
  assert (Hmq : (0 < inject_Z (Z.of_nat m))%Q).
  { change 0%Q with (inject_Z 0). rewrite <- Zlt_Qlt. lia. }
  assert (Hz : (Z.of_nat n <= Qceiling q * Z.of_nat m)%Z).
  { rewrite Zle_Qle, inject_Z_mult.
    apply Qle_trans with (q * inject_Z (Z.of_nat m))%Q.
    - assert (E : (q * inject_Z (Z.of_nat m) == inject_Z (Z.of_nat n))%Q).
      { unfold q. field. intros Z0. apply Qlt_not_eq in Hmq.
        apply Hmq. symmetry. exact Z0. }
      rewrite E. apply Qle_refl.
    - apply Qmult_le_compat_r; [exact Hc | apply Qlt_le_weak; exact Hmq]. }
  assert (H0 : (0 <= Qceiling q)%Z) by nia.
  apply Nat2Z.inj_le. rewrite Nat2Z.inj_mul, Z2Nat.id by exact H0. lia.
Qed.

Lemma succ_mod (i k : nat) :
  0 < k ->
  S i mod k = if S (i mod k) =? k then 0 else S (i mod k).
Proof.
  intros Hk.
  pose proof (Nat.div_mod_eq i k) as E.
  pose proof (Nat.mod_upper_bound i k ltac:(lia)) as B.
  destruct (Nat.eqb_spec (S (i mod k)) k) as [Heq | Hne].
  - symmetry. apply (Nat.mod_unique _ _ (S (i / k))); [lia |].
    rewrite Nat.mul_succ_r. lia.
  - symmetry. apply (Nat.mod_unique _ _ (i / k)); lia.
Qed.

(** Keeping every [k]-th element: [k] times the number kept, plus the
    distance from [i] to the next kept index, is at most the length plus
    [k - 1]. *)
Lemma filterIndex_every {A : Type} (k : nat) (l : list A) (i : nat) :
  0 < k ->
  k * length (filterIndex (fun j => j mod k =? 0) i l)
  + (if i mod k =? 0 then 0 else k - i mod k)
  <= length l + (k - 1).
Proof.
  intros Hk. revert i. induction l as [| a t IH]; intros i.
  - cbn [filterIndex length].
    pose proof (Nat.mod_upper_bound i k ltac:(lia)).
    destruct (Nat.eqb_spec (i mod k) 0); lia.
  - cbn [filterIndex]. specialize (IH (S i)).
    rewrite (succ_mod i k Hk) in IH.
    pose proof (Nat.mod_upper_bound i k ltac:(lia)) as B.
    destruct (Nat.eqb_spec (i mod k) 0) as [E0 | N0].
    + cbn [length]. rewrite Nat.mul_succ_r. rewrite E0 in IH.
      destruct (Nat.eqb_spec 1 k) as [E1 | N1].
      * cbn in IH. lia.
      * destruct (Nat.eqb_spec 1 0); lia.
    + cbn [length].
      destruct (Nat.eqb_spec (S (i mod k)) k) as [E1 | N1].
      * cbn in IH. lia.
      * destruct (Nat.eqb_spec (S (i mod k)) 0); lia.
Qed.

(** [ceil_div n m] is the least number of steps of [m] that cover [n]. *)
Lemma ceil_div_least (n m : nat) :
  0 < m -> 0 < n -> m * (ceil_div n m - 1) < n.
Proof.
  intros Hm Hn. unfold ceil_div.
  set (q := (inject_Z (Z.of_nat n) / inject_Z (Z.of_nat m))%Q).
  pose proof (Qceiling_lt q) as Hc.
  assert (Hmq : (0 < inject_Z (Z.of_nat m))%Q).
  { change 0%Q with (inject_Z 0). rewrite <- Zlt_Qlt. lia. }
  assert (E : (q * inject_Z (Z.of_nat m) == inject_Z (Z.of_nat n))%Q).
  { unfold q. field. intros Z0. apply Qlt_not_eq in Hmq.
    apply Hmq. symmetry. exact Z0. }
  assert (Hz : ((Qceiling q - 1) * Z.of_nat m < Z.of_nat n)%Z).
  { rewrite Zlt_Qlt, inject_Z_mult, <- E.
    apply Qmult_lt_compat_r; assumption. }
  destruct (Z.le_gt_cases (Qceiling q) 0) as [H0 | H0].
  - replace (Z.to_nat (Qceiling q)) with 0 by lia. lia.
  - apply Nat2Z.inj_lt. rewrite Nat2Z.inj_mul, Nat2Z.inj_sub by lia.
    rewrite Z2Nat.id by lia. change (Z.of_nat 1) with 1%Z. lia.
Qed.

(** Keeping every [k]-th index: the [i]-th element kept is the element
    [i * k] places after the first kept one. *)
Lemma filterIndex_nth {A : Type} (k : nat) (l : list A) (i0 i : nat) :
  0 < k ->
  nth_error (filterIndex (fun j => j mod k =? 0) i0 l) i
  = nth_error l ((if i0 mod k =? 0 then 0 else k - i0 mod k) + i * k).
Proof.
  intros Hk. revert i0 i. induction l as [| a t IH]; intros i0 i.
  - cbn [filterIndex]. rewrite !nth_error_nil. reflexivity.
  - cbn [filterIndex].
    pose proof (succ_mod i0 k Hk) as Hs.
    pose proof (Nat.mod_upper_bound i0 k ltac:(lia)) as B.
    destruct (Nat.eqb_spec (i0 mod k) 0) as [E0 | N0].
    + destruct i as [| i]; [reflexivity |].
      cbn [nth_error]. rewrite IH, Hs, E0.
      destruct (Nat.eqb_spec 1 k) as [E1 | N1].
      * cbn [Nat.eqb]. subst k.
        replace (0 + S i * 1) with (S (0 + i * 1)) by lia. reflexivity.
      * destruct (Nat.eqb_spec 1 0) as [E | _]; [lia |].
        replace (0 + S i * k) with (S (k - 1 + i * k)) by lia. reflexivity.
    + rewrite IH, Hs.
      destruct (Nat.eqb_spec (S (i0 mod k)) k) as [E1 | N1].
      * cbn [Nat.eqb].
        replace (k - i0 mod k + i * k) with (S (0 + i * k)) by lia.
        reflexivity.
      * destruct (Nat.eqb_spec (S (i0 mod k)) 0) as [E | _]; [lia |].
        replace (k - i0 mod k + i * k)
          with (S (k - S (i0 mod k) + i * k)) by lia.
        reflexivity.
Qed.

(** X17.  The chart never gets more than 300 points.  A sequence of at most 300
    frames is handed over whole.  A longer one is thinned to every [k]-th
    frame, [k] being the least number with [300 * k] at least the length:
    the [i]-th point of the chart is frame [i * k] of the sequence, as long
    as there is one.  The first frame is always kept, and the wrist-height
    offset is shown times 100. *)
Theorem chartData_bounded (data : list FrameAngleData) :
  length (chartData data) <= 300
  /\ (length data <= 300 -> chartData data = map rescale data)
  /\ (forall f rest, data = f :: rest ->
      exists rest', chartData data = rescale f :: rest')
  /\ (300 < length data ->
      let k := ceil_div (length data) 300 in
      300 * (k - 1) < length data <= 300 * k
      /\ forall i, nth_error (chartData data) i
                   = option_map rescale (nth_error data (i * k))).
Proof.
  unfold chartData, MAX_DISPLAY_FRAMES. cbv zeta.
  split; [| split; [| split]].
  - rewrite length_map.
    destruct (Nat.leb_spec (length data) 300) as [H | H]; [exact H |].
    set (k := ceil_div (length data) 300).
    pose proof (ceil_div_covers (length data) 300 ltac:(lia)) as Hc.
    fold k in Hc.
    assert (Hk : 0 < k) by lia.
    pose proof (filterIndex_every k data 0 Hk) as F.
    rewrite Nat.Div0.mod_0_l in F. cbn [Nat.eqb] in F.
    set (m := length (filterIndex (fun j => j mod k =? 0) 0 data)) in *.
    nia.
  - intros H. apply Nat.leb_le in H. rewrite H. reflexivity.
  - intros f rest ->.
    destruct (length (f :: rest) <=? 300); [eexists; reflexivity |].
    cbn [filterIndex]. rewrite Nat.Div0.mod_0_l. cbn [Nat.eqb map].
    eexists. reflexivity.
  - intros Hlong.
    pose proof (ceil_div_covers (length data) 300 ltac:(lia)) as Hc.
    pose proof (ceil_div_least (length data) 300 ltac:(lia) ltac:(lia)) as Hl.
    split; [split; assumption |].
    intros i.
    destruct (Nat.leb_spec (length data) 300) as [H | _]; [lia |].
    rewrite nth_error_map, filterIndex_nth by lia.
    rewrite Nat.Div0.mod_0_l. cbn [Nat.eqb Nat.add]. reflexivity.
Qed.

End ChartFacts.

(** ** The capture *)

Module CaptureFacts.
Import Geometry Capture.
Local Open Scope nat_scope.

Lemma onResults_consistent (s : State) (r : Results) :
  consistent s -> consistent (onResults s r).
Proof.
  intros H. pose proof H as (H1 & H2 & H3 & H4). unfold onResults.
  destruct (context r); cbn [negb]; [| exact H].
  destruct (poseLandmarks r) as [lms |]; [| exact H].
  unfold consistent. cbn [frameRef storedFrames frameAngles displayCount].
  rewrite !length_app. cbn [length].
  split; [lia |]. split; [lia |]. split; [lia |].
  intros i f Hi.
  destruct (Nat.lt_ge_cases i (length (storedFrames s))) as [Hlt | Hge].
  - rewrite nth_error_app1 in Hi by exact Hlt.
    rewrite nth_error_app1 by lia. apply H4. exact Hi.
  - rewrite nth_error_app2 in Hi by exact Hge.
    rewrite nth_error_app2 by lia. rewrite H2.
    destruct (i - length (storedFrames s)) as [| d] eqn:Ed.
    + cbn in Hi. injection Hi as <-. cbn. split; [lia |].
      do 2 f_equal. lia.
    + cbn in Hi. destruct d; discriminate.
Qed.

Lemma fold_onResults_consistent (rs : list Results) (s : State) :
  consistent s -> consistent (fold_left onResults rs s).
Proof.
  revert s. induction rs as [| r rs IH]; intros s Hs; [exact Hs |].
  cbn. apply IH. apply onResults_consistent. exact Hs.
Qed.

Lemma fold_onResults_length (rs : list Results) (s : State) :
  length (storedFrames (fold_left onResults rs s))
  = length (storedFrames s) + length (filter recorded rs).
Proof.
  revert s. induction rs as [| r rs IH]; intros s; [cbn; lia |].
  cbn [fold_left filter]. rewrite IH. unfold onResults, recorded, detected.
  destruct (context r); cbn [negb andb length]; [| lia].
  destruct (poseLandmarks r); cbn [storedFrames length]; [| lia].
  rewrite length_app. cbn. lia.
Qed.

(** X18.  Whatever the detector reports, in whatever order: the captured frames
    are numbered 0, 1, 2, ... in the order they arrived, one for each
    result that has landmarks and finds a context to draw on, and none for
    the others; the angle records run in step with them, each computed from
    the landmarks stored under the same number; and the frame counter and
    the displayed count are the number of captured frames. *)
Theorem capture_numbers_frames (rs : list Results) :
  let s := capture rs in
  length (storedFrames s) = length (filter recorded rs)
  /\ frameRef s = length (storedFrames s)
  /\ displayCount s = length (storedFrames s)
  /\ length (frameAngles s) = length (storedFrames s)
  /\ forall i f, nth_error (storedFrames s) i = Some f ->
       frame f = i
       /\ nth_error (frameAngles s) i
          = Some {| angleFrame := i; angles := calcKyudoAngles (landmarks f) |}.
Proof.
  cbv zeta. unfold capture.
  assert (C : consistent (fold_left onResults rs reset)).
  { apply fold_onResults_consistent. unfold consistent. cbn.
    repeat split; try reflexivity; destruct i; discriminate. }
  destruct C as (H1 & H2 & H3 & H4).
  split; [rewrite fold_onResults_length; reflexivity |].
  repeat split; try assumption; apply (H4 i f); assumption.
Qed.

Lemma fold_onResults_times (rs : list Results) (s : State) :
  map timeMs (storedFrames (fold_left onResults rs s))
  = map timeMs (storedFrames s)
    ++ map (fun r => (videoTime r * 1000)%R) (filter recorded rs).
Proof.
  revert s. induction rs as [| r rs IH]; intros s.
  - cbn. rewrite app_nil_r. reflexivity.
  - cbn [fold_left filter]. rewrite IH. unfold onResults, recorded, detected.
    destruct (context r); cbn [negb andb]; [| reflexivity].
    destruct (poseLandmarks r); [| reflexivity].
    cbn [storedFrames map]. rewrite map_app, <- app_assoc. reflexivity.
Qed.

Lemma sorted_times (rs : list Results) :
  StronglySorted Rle (map videoTime rs) ->
  StronglySorted Rle
    (map (fun r => (videoTime r * 1000)%R) (filter recorded rs)).
Proof.
  induction rs as [| r rs IH]; intros Hs; [constructor |].
  cbn [map] in Hs. inversion Hs as [| ? ? Hs' Hall]; subst.
  cbn [filter]. destruct (recorded r); [| apply IH; exact Hs'].
  cbn [map]. constructor; [apply IH; exact Hs' |].
  apply Forall_forall. intros t Ht.
  apply in_map_iff in Ht as (r' & <- & Hr').
  apply filter_In in Hr' as [Hr' _].
  rewrite Forall_forall in Hall.
  specialize (Hall (videoTime r') (in_map videoTime rs r' Hr')). lra.
Qed.

(** X19.  If the video time never goes back from one result to the next, the
    stamps of the captured frames never go back either. *)
Theorem capture_stamps_sorted (rs : list Results) :
  StronglySorted Rle (map videoTime rs) ->
  StronglySorted Rle (map timeMs (storedFrames (capture rs))).
Proof.
  intros Hs. unfold capture. rewrite fold_onResults_times. cbn [app map reset storedFrames].
  apply sorted_times. exact Hs.
Qed.

Lemma capture_stamps_sorted_witness :
  StronglySorted Rle
    (map timeMs
       (storedFrames
          (capture [ {| context := true; poseLandmarks := Some [];
                        videoTime := 0 |};
                     {| context := true; poseLandmarks := None;
                        videoTime := 1 / 30 |};
                     {| context := true; poseLandmarks := Some [];
                        videoTime := 2 / 30 |} ]))).
Proof.
  apply capture_stamps_sorted. cbn [map videoTime].
  repeat constructor; lra.
Defined.

End CaptureFacts.

(** ** Replay *)

Module ReplayFacts.
Import Replay.
Local Open Scope nat_scope.

(** *** The frame search *)

Lemma advanceFuel_ge st lft fuel idx : idx <= advanceFuel st lft fuel idx.
Proof.
  revert idx. induction fuel as [| k IH]; intros idx; cbn; [lia |].
  destruct (loopCond st lft idx); [| lia].
  specialize (IH (S idx)). lia.
Qed.

Lemma loopCond_lt st lft idx : loopCond st lft idx = true -> S idx < length st.
Proof.
  unfold loopCond. intros H. apply andb_prop in H as [H _].
  apply Nat.ltb_lt in H. lia.
Qed.

Lemma advanceFuel_lt st lft fuel idx :
  idx < length st -> advanceFuel st lft fuel idx < length st.
Proof.
  revert idx. induction fuel as [| k IH]; intros idx Hidx; cbn; [exact Hidx |].
  destruct (loopCond st lft idx) eqn:E; [| exact Hidx].
  apply IH. apply loopCond_lt in E. lia.
Qed.

(** The bound on the rounds does not cut the [while] short: where the
    search stops, the test of the [while] is false. *)
Lemma advanceFuel_exits st lft fuel idx :
  length st <= fuel + idx ->
  loopCond st lft (advanceFuel st lft fuel idx) = false.
Proof.
  revert idx. induction fuel as [| k IH]; intros idx Hf; cbn.
  - destruct (loopCond st lft idx) eqn:E; [| reflexivity].
    apply loopCond_lt in E. lia.
  - destruct (loopCond st lft idx) eqn:E; [| exact E].
    apply IH. lia.
Qed.

Lemma advance_exits st lft idx : loopCond st lft (advance st lft idx) = false.
Proof. apply advanceFuel_exits. lia. Qed.

Lemma advance_ge st lft idx : idx <= advance st lft idx.
Proof. apply advanceFuel_ge. Qed.

Lemma advance_lt st lft idx :
  idx < length st -> advance st lft idx < length st.
Proof. apply advanceFuel_lt. Qed.

(** Every frame the search walks past is stamped at or before the virtual
    timestamp. *)
Lemma advanceFuel_passed st lft fuel idx j f :
  idx <= j < advanceFuel st lft fuel idx ->
  nth_error st j = Some f -> (timeMs f <= lft)%Q.
Proof.
  revert idx. induction fuel as [| k IH]; intros idx [Hlo Hhi] Hj; cbn in Hhi.
  - lia.
  - destruct (loopCond st lft idx) eqn:E; [| lia].
    destruct (Nat.eq_dec j idx) as [-> | Hne].
    + unfold loopCond in E. apply andb_prop in E as [_ E].
      rewrite Hj in E. apply Qle_bool_iff. exact E.
    + apply (IH (S idx)); [lia | exact Hj].
Qed.

(** Where the search stops: on the last frame, or on the first frame from
    [idx] on that is stamped after the virtual timestamp. *)
Lemma advance_stops st lft idx f :
  idx < length st ->
  nth_error st (advance st lft idx) = Some f ->
  S (advance st lft idx) = length st \/ (lft < timeMs f)%Q.
Proof.
  intros Hidx Hf. pose proof (advance_exits st lft idx) as E.
  pose proof (advance_lt st lft idx Hidx) as Hlt.
  unfold loopCond in E. rewrite Hf in E.
  apply andb_false_iff in E as [E | E].
  - left. apply Nat.ltb_ge in E. lia.
  - right. apply Qnot_le_lt. intros Hle. apply Qle_bool_iff in Hle. congruence.
Qed.


(** *** The animation-frame callback *)

Lemma paused_tick_noop e s now :
  replayPausedRef s = true -> step e s (Tick now) = s.
Proof.
  intros Hp. cbn. destruct (replayRafRef s) as [l |]; [| reflexivity].
  unfold loop. rewrite Hp. reflexivity.
Qed.

Lemma paused_ticks_noop e s (times : list Q) :
  replayPausedRef s = true -> run e s (map Tick times) = s.
Proof.
  intros Hp. induction times as [| t times IH]; [reflexivity |].
  cbn [map run fold_left]. rewrite paused_tick_noop by exact Hp. exact IH.
Qed.

(** The clock of the callback does not see a pause: pausing, letting any
    number of frames go by and resuming leads the next callback to the very
    state it would have reached without the pause, with all the time spent
    paused counted as played. *)
Lemma pause_invisible_to_clock e s (times : list Q) now :
  isReplaying s = true -> replayPausedRef s = false -> replayPaused s = false ->
  step e (step e (run e (step e s Pause) (map Tick times)) Pause) (Tick now)
  = step e s (Tick now).
Proof.
  intros Hr Hp Hp'.
  assert (E1 : step e s Pause = toggleReplayPause s) by (cbn; rewrite Hr; reflexivity).
  rewrite E1, paused_ticks_noop by (cbn; rewrite Hp; reflexivity).
  assert (E2 : step e (toggleReplayPause s) Pause = s).
  { cbn. rewrite Hr. unfold toggleReplayPause. cbn. rewrite Hp. cbn.
    destruct s; cbn in *; subst; reflexivity. }
  rewrite E2. reflexivity.
Qed.

(** An unpaused callback of a replay under way leaves it under way, on an
    index that has not gone back and is still inside the buffer. *)
Lemma tick_running e s now :
  running e s -> replayPausedRef s = false ->
  running e (step e s (Tick now))
  /\ replayIdxRef s <= replayIdxRef (step e s (Tick now))
  /\ replayPausedRef (step e s (Tick now)) = false
  /\ drawn (step e s (Tick now)) = Some (replayIdxRef (step e s (Tick now))).
Proof.
  intros (Hr & Hs & Hidx) Hp. unfold scheduled in Hs. cbn.
  destruct (replayRafRef s) as [l |] eqn:El; [| discriminate].
  unfold loop. rewrite Hp.
  destruct (Nat.leb_spec (length (stored e)) (replayIdxRef s)) as [H | _]; [lia |].
  set (lft := (lastFrameTime l + _ * speed l)%Q).
  pose proof (advance_lt (stored e) lft _ Hidx) as Hlt.
  pose proof (advance_ge (stored e) lft (replayIdxRef s)) as Hge.
  destruct (nth_error (stored e) (advance (stored e) lft (replayIdxRef s)))
    as [f |] eqn:Ef.
  - unfold running, scheduled. cbn. repeat split; assumption.
  - apply nth_error_None in Ef. lia.
Qed.

(** No run of callbacks ends a replay under way: the test
    [idx >= stored.length] of the callback never holds, because the search
    stops at [stored.length - 1]. *)
Lemma ticks_never_stop e (times : list Q) s :
  running e s -> replayPausedRef s = false ->
  running e (run e s (map Tick times)).
Proof.
  revert s. induction times as [| t times IH]; intros s Hrun Hp; [exact Hrun |].
  cbn [map run fold_left].
  destruct (tick_running e s t Hrun Hp) as (Hrun' & _ & Hp' & _).
  apply IH; assumption.
Qed.

Lemma play_running e s :
  canvas e = true -> video e = true -> ctx e = true -> stored e <> [] ->
  isReplaying s = false ->
  running e (step e s Play)
  /\ replayPausedRef (step e s Play) = false
  /\ replayIdxRef (step e s Play) = 0.
Proof.
  intros Hc Hv Hx Hne Hr. cbn. rewrite Hr. unfold startReplay.
  rewrite Hc, Hv, Hx. destruct (stored e) as [| f st] eqn:E; [contradiction |].
  cbn. unfold running, scheduled. cbn. rewrite E. cbn.
  repeat split; lia.
Qed.

(** C1, on the code.  An 11-frame capture, 33 ms apart, played at 1x with a
    callback every 16 ms.  Before the pause the replay stands on frame 1.
    It is paused, callbacks go by until 6000 ms, and it is resumed: the
    index is still 1.  The first callback after the resume, 16 ms later,
    puts it on frame 10, the end of the buffer; the same callback without
    the pause leaves it on frame 1. *)
Theorem pause_resume_catches_up :
  let e := evenly 11 33 in
  let before := run e initial [Play; Tick 1000; Tick 1016] in
  let paused := run e before [Pause; Tick 1032; Tick 1048; Tick 6000] in
  let resumed := step e paused Pause in
  replayIdxRef before = 1
  /\ replayIdxRef paused = 1
  /\ replayIdxRef resumed = 1
  /\ replayPausedRef resumed = false
  /\ replayIdxRef (step e resumed (Tick 6016)) = 10
  /\ replayIdxRef (step e before (Tick 1032)) = 1.
Proof. vm_compute. repeat split; reflexivity. Qed.

(** C2, on the code.  A 3-frame capture played from the start reaches its
    last frame, index 2, at the second callback.  The replay is still
    marked as running and a callback is still pending then, and after any
    further callbacks. *)
Theorem last_frame_keeps_ticking :
  let e := evenly 3 33 in
  let s := run e initial [Play; Tick 0; Tick 100] in
  let s' := run e s [Tick 200; Tick 300; Tick 100000] in
  length (stored e) = 3
  /\ replayIdxRef s = 2 /\ isReplaying s = true /\ scheduled s = true
  /\ replayIdxRef s' = 2 /\ isReplaying s' = true /\ scheduled s' = true
  /\ (forall times : list Q, running e (run e s (map Tick times))).
Proof.
  cbv zeta.
  split; [reflexivity |]. split; [reflexivity |]. split; [reflexivity |].
  split; [reflexivity |]. split; [vm_compute; reflexivity |].
  split; [vm_compute; reflexivity |]. split; [vm_compute; reflexivity |].
  intros times. apply ticks_never_stop; [| reflexivity].
  unfold running. repeat split; try reflexivity. vm_compute. lia.
Qed.

(** C4, on the code.  A 4-frame capture, 33 ms apart, played from frame 0.
    At the first callback no time has gone by and the virtual timestamp is
    0.  The search tests the stamp of the frame it stands on, not of the
    next one, and moves to frame 1, stamped 33: the selected frame exceeds
    the virtual timestamp, and frame 0, the nearest frame that does not
    exceed it, is never painted. *)
Theorem first_tick_skips_start_frame :
  let e := evenly 4 33 in
  let s := run e initial [Play; Tick 1000] in
  replayIdxRef s = 1
  /\ drawn s = Some 1
  /\ option_map Qred (virtualTime s) = Some 0%Q
  /\ option_map Qred (shownTime e s) = Some 33%Q
  /\ nearestNotExceeding (stored e) 0 0 = 0.
Proof. vm_compute. repeat split; reflexivity. Qed.

(** *** Changing the speed *)

(** The first callback of a fresh [startReplay] closure measures no
    elapsed time, so its virtual timestamp is the stamp of the start
    frame, which the search then walks past if a next frame exists. *)
Lemma advance_from_anchor st idx now sp :
  S idx < length st ->
  idx < advance st (anchor st idx + (now - now) * sp)%Q idx.
Proof.
  intros Hidx. unfold advance.
  destruct (length st) as [| k] eqn:Ek; [lia |].
  cbn [advanceFuel].
  assert (Hc : loopCond st (anchor st idx + (now - now) * sp)%Q idx = true).
  { unfold loopCond, anchor. apply andb_true_intro. split.
    - apply Nat.ltb_lt. lia.
    - destruct (nth_error st idx) as [f |] eqn:Ef.
      + apply Qle_bool_iff.
        assert (E : (timeMs f + (now - now) * sp == timeMs f)%Q) by ring.
        rewrite E. apply Qle_refl.
      + apply nth_error_None in Ef. lia. }
  rewrite Hc. apply (advanceFuel_ge st _ k (S idx)).
Qed.

(** C9.  In a replay that is running and paused, a press on a speed button
    restarts it from the current index with the pause flags cleared and a
    fresh callback at the new speed.  At the next animation frame that
    callback runs the frame search and paints: the index does not go back,
    it moves on if a next frame exists, and the replay stays scheduled;
    before the press, the same animation frame would have left the paused
    state as it was. *)
Theorem speed_change_unpauses (e : Env) (s : State) (sp now : Q) :
  canvas e = true -> video e = true -> ctx e = true ->
  isReplaying s = true -> replayPausedRef s = true ->
  replayIdxRef s < length (stored e) ->
  let s1 := step e s (Speed sp) in
  let s2 := step e s1 (Tick now) in
  replayPausedRef s1 = false /\ replayPaused s1 = false
  /\ isReplaying s1 = true /\ replaySpeed s1 = sp
  /\ replayIdxRef s1 = replayIdxRef s
  /\ replayRafRef s1
     = Some {| speed := sp; lastRealTime := None;
               lastFrameTime := anchor (stored e) (replayIdxRef s) |}
  /\ step e s (Tick now) = s
  /\ replayIdxRef s <= replayIdxRef s2
  /\ (S (replayIdxRef s) < length (stored e) -> replayIdxRef s < replayIdxRef s2)
  /\ drawn s2 = Some (replayIdxRef s2)
  /\ running e s2 /\ replayPausedRef s2 = false.
Proof.
  intros Hc Hv Hx Hr Hp Hidx. cbv zeta.
  assert (E1 : step e s (Speed sp)
               = {| isReplaying := true; replayPaused := false;
                    replaySpeed := sp; replayFrame := replayFrame s;
                    replayIdxRef := replayIdxRef s; replayPausedRef := false;
                    replayRafRef :=
                      Some {| speed := sp; lastRealTime := None;
                              lastFrameTime := anchor (stored e) (replayIdxRef s) |};
                    currentTime := currentTime s; drawn := drawn s |}).
  { cbn. unfold setSpeed, startReplay. rewrite Hr, Hc, Hv, Hx. cbn.
    destruct (length (stored e)) eqn:El; [lia | reflexivity]. }
  rewrite E1. cbn [replayPausedRef replayPaused isReplaying replaySpeed
                   replayIdxRef replayRafRef].
  do 6 (split; [reflexivity |]).
  split; [apply paused_tick_noop; exact Hp |].
  match goal with |- context [step e ?t (Tick now)] => set (s1 := t) end.
  assert (Hrun : running e s1) by (unfold running, scheduled; cbn; auto).
  destruct (tick_running e s1 now Hrun eq_refl) as (Hrun2 & Hge & Hp2 & Hd).
  split; [exact Hge |]. split; [| auto].
  intros Hnext. cbn. unfold loop. cbn.
  destruct (Nat.leb_spec (length (stored e)) (replayIdxRef s)) as [H | _]; [lia |].
  pose proof (advance_from_anchor (stored e) (replayIdxRef s) now sp Hnext) as Hadv.
  destruct (nth_error (stored e) _); cbn; exact Hadv.
Qed.

Lemma speed_change_unpauses_witness :
  let e := evenly 11 33 in
  let s := run e initial [Play; Tick 1000; Tick 1016; Pause; Tick 1032] in
  replayPausedRef s = true
  /\ replayPausedRef (step e s (Speed 2)) = false
  /\ replayIdxRef s < replayIdxRef (step e (step e s (Speed 2)) (Tick 1048)).
Proof.
  cbv zeta. split; [reflexivity |].
  pose proof (speed_change_unpauses (evenly 11 33)
                (run (evenly 11 33) initial
                   [Play; Tick 1000; Tick 1016; Pause; Tick 1032])
                2 1048 eq_refl eq_refl eq_refl eq_refl eq_refl
                ltac:(vm_compute; lia)) as H.
  cbv zeta in H. destruct H as (H1 & _ & _ & _ & _ & _ & _ & _ & H9 & _).
  split; [exact H1 |]. apply H9. vm_compute. lia.
Defined.

(** *** More on the frame search *)

(** X20.  From an index inside the buffer the search ends inside the buffer, not
    before where it began; every frame it walks past is stamped at or
    before the virtual timestamp; and it ends on the last frame or on a
    frame stamped after the virtual timestamp. *)
Theorem search_selects (st : list StoredFrame) (lft : Q) (idx : nat) :
  idx < length st ->
  let r := advance st lft idx in
  idx <= r < length st
  /\ (forall j f, idx <= j < r -> nth_error st j = Some f ->
      (timeMs f <= lft)%Q)
  /\ (forall f, nth_error st r = Some f ->
      S r = length st \/ (lft < timeMs f)%Q).
Proof.
  intros Hidx. cbv zeta. split; [split |].
  - apply advance_ge.
  - apply advance_lt. exact Hidx.
  - split.
    + intros j f Hj Hf. exact (advanceFuel_passed st lft _ idx j f Hj Hf).
    + intros f Hf. apply advance_stops; assumption.
Qed.

Lemma search_selects_witness :
  2 <= advance (stored (evenly 4 33)) 70 2 < 4.
Proof.
  apply (search_selects (stored (evenly 4 33)) 70 2). cbn. lia.
Defined.

(** The search is the same from any earlier index whose frames up to the
    later one are all stamped at or before the virtual timestamp. *)
Lemma advanceFuel_enough st lft fuel fuel' idx :
  length st <= fuel + idx -> length st <= fuel' + idx ->
  advanceFuel st lft fuel idx = advanceFuel st lft fuel' idx.
Proof.
  revert fuel' idx. induction fuel as [| k IH]; intros fuel' idx H H'.
  - cbn. destruct fuel' as [| k']; [reflexivity |]. cbn.
    destruct (loopCond st lft idx) eqn:E; [| reflexivity].
    apply loopCond_lt in E. lia.
  - cbn. destruct (loopCond st lft idx) eqn:E.
    + destruct fuel' as [| k'].
      * apply loopCond_lt in E. lia.
      * cbn. rewrite E. apply IH; lia.
    + destruct fuel' as [| k']; [reflexivity |]. cbn. rewrite E. reflexivity.
Qed.

Lemma advance_step st lft idx :
  loopCond st lft idx = true -> advance st lft idx = advance st lft (S idx).
Proof.
  intros E. unfold advance.
  rewrite (advanceFuel_enough st lft (length st) (S (length st)) idx) by lia.
  cbn [advanceFuel]. rewrite E. reflexivity.
Qed.

Lemma advance_halt st lft idx :
  loopCond st lft idx = false -> advance st lft idx = idx.
Proof.
  intros E. unfold advance. destruct (length st); cbn; [reflexivity |].
  rewrite E. reflexivity.
Qed.

Lemma advance_skip st lft k i :
  k <= i -> i < length st ->
  (forall j f, k <= j < i -> nth_error st j = Some f -> (timeMs f <= lft)%Q) ->
  advance st lft k = advance st lft i.
Proof.
  intros Hki Hi Hpast. induction Hki as [| i Hki IH]; [reflexivity |].
  rewrite IH; [| lia | intros j f Hj; apply Hpast; lia].
  apply advance_step. unfold loopCond. apply andb_true_intro. split.
  - apply Nat.ltb_lt. lia.
  - destruct (nth_error st i) as [f |] eqn:Ef.
    + apply Qle_bool_iff. apply (Hpast i f); [lia | exact Ef].
    + apply nth_error_None in Ef. lia.
Qed.

(** *** The index under callbacks *)

Lemma tick_index_ge e s now :
  replayIdxRef s <= replayIdxRef (step e s (Tick now)).
Proof.
  cbn. destruct (replayRafRef s) as [l |]; [| lia].
  unfold loop. destruct (replayPausedRef s); [lia |].
  destruct (length (stored e) <=? replayIdxRef s); [cbn; lia |].
  destruct (nth_error (stored e) _); cbn; apply advance_ge.
Qed.

(** X21.  Left to the callbacks alone, the index never goes back, whatever the
    state and whatever the times at which they run. *)
Theorem ticks_index_monotone e s (times : list Q) :
  replayIdxRef s <= replayIdxRef (run e s (map Tick times)).
Proof.
  revert s. induction times as [| t times IH]; intros s; [cbn; lia |].
  cbn [map run fold_left].
  pose proof (tick_index_ge e s t) as H1.
  specialize (IH (step e s (Tick t))). unfold run in IH. lia.
Qed.

(** *** The virtual clock *)

Lemma tick_clock e s l now :
  running e s -> replayPausedRef s = false -> replayRafRef s = Some l ->
  replayRafRef (step e s (Tick now))
  = Some {| speed := speed l; lastRealTime := Some now;
            lastFrameTime := nextVirtualTime l now |}.
Proof.
  intros (_ & _ & Hidx) Hp Hl. cbn. rewrite Hl. unfold loop. rewrite Hp.
  destruct (Nat.leb_spec (length (stored e)) (replayIdxRef s)) as [H | _]; [lia |].
  fold (nextVirtualTime l now).
  pose proof (advance_lt (stored e) (nextVirtualTime l now) _ Hidx) as Hlt.
  destruct (nth_error (stored e) _) as [f |] eqn:Ef; [reflexivity |].
  apply nth_error_None in Ef. lia.
Qed.

(** *** Stopping *)

Lemma unscheduled_tick_noop e s now :
  replayRafRef s = None -> step e s (Tick now) = s.
Proof. intros H. cbn. rewrite H. reflexivity. Qed.

(** X23.  The stop button ends a replay for good: nothing is pending, the flags
    are down, the index stays where it was, and no later callback changes
    the state. *)
Theorem stop_is_final e s (times : list Q) :
  isReplaying s = true ->
  let s' := step e s Stop in
  isReplaying s' = false /\ scheduled s' = false
  /\ replayPaused s' = false /\ replayPausedRef s' = false
  /\ replayIdxRef s' = replayIdxRef s
  /\ run e s' (map Tick times) = s'.
Proof.
  intros Hr. cbv zeta. cbn [step]. rewrite Hr.
  do 5 (split; [reflexivity |]).
  induction times as [| t times IH]; [reflexivity |].
  cbn [map run fold_left]. rewrite unscheduled_tick_noop by reflexivity.
  exact IH.
Qed.

Lemma stop_is_final_witness :
  scheduled (run (evenly 3 33) initial [Play; Tick 0; Tick 100; Stop]) = false.
Proof.
  change (run (evenly 3 33) initial [Play; Tick 0; Tick 100; Stop])
    with (step (evenly 3 33)
            (run (evenly 3 33) initial [Play; Tick 0; Tick 100]) Stop).
  apply (stop_is_final (evenly 3 33) _ []). reflexivity.
Defined.

(** *** An empty buffer *)

Lemma startReplay_empty e idx sp s :
  stored e = [] -> startReplay e idx sp s = s.
Proof.
  intros H. unfold startReplay. rewrite H. cbn [length Nat.eqb].
  rewrite !orb_true_r. reflexivity.
Qed.

Lemma step_empty e s ev :
  stored e = [] ->
  isReplaying s = false /\ replayRafRef s = None ->
  isReplaying (step e s ev) = false /\ replayRafRef (step e s ev) = None.
Proof.
  intros He [Hr Hs].
  destruct ev; cbn [step]; unfold setSpeed, seekbarDown;
    rewrite ?Hr, ?Hs, ?startReplay_empty by exact He;
    cbn; auto.
Qed.

(** X24.  With nothing captured no replay ever starts: whatever the user does
    and whenever callbacks would run, the component is not replaying and
    no callback is pending. *)
Theorem empty_buffer_never_replays e (evs : list Event) :
  stored e = [] ->
  isReplaying (run e initial evs) = false
  /\ scheduled (run e initial evs) = false.
Proof.
  intros He.
  assert (H : forall s, isReplaying s = false /\ replayRafRef s = None ->
              isReplaying (run e s evs) = false
              /\ replayRafRef (run e s evs) = None).
  { induction evs as [| ev evs IH]; intros s Hs; [exact Hs |].
    cbn [run fold_left]. apply IH. apply step_empty; assumption. }
  destruct (H initial (conj eq_refl eq_refl)) as [H1 H2].
  split; [exact H1 |]. unfold scheduled. rewrite H2. reflexivity.
Qed.

Lemma empty_buffer_never_replays_witness :
  isReplaying (run (evenly 0 33) initial
                 [Play; SeekbarDown; Speed 2; Pause; Tick 10]) = false.
Proof.
  apply (empty_buffer_never_replays (evenly 0 33)). reflexivity.
Defined.

(** *** Seeking *)

(** X25.  While a replay is paused the seek bar decides the frame: the index and
    the painted frame are the one sought, the video is moved to its stamp,
    and callbacks leave all of this alone. *)
Theorem seek_while_paused_holds e s k f (times : list Q) :
  canvas e = true -> video e = true -> ctx e = true ->
  replayPausedRef s = true ->
  nth_error (stored e) k = Some f ->
  let s' := run e (step e s (Seek k)) (map Tick times) in
  replayIdxRef s' = k /\ replayFrame s' = k /\ drawn s' = Some k
  /\ currentTime s' = (timeMs f / 1000)%Q.
Proof.
  intros Hc Hv Hx Hp Hf. cbv zeta.
  rewrite paused_ticks_noop by exact Hp.
  cbn [step]. unfold handleSeek. rewrite Hf, Hc, Hv, Hx. cbn.
  repeat split; reflexivity.
Qed.

Lemma seek_while_paused_holds_witness :
  replayIdxRef
    (run (evenly 11 33)
       (step (evenly 11 33)
          (run (evenly 11 33) initial [Play; Tick 0; Pause]) (Seek 7))
       (map Tick [16%Q; 5000%Q])) = 7.
Proof.
  apply (seek_while_paused_holds (evenly 11 33) _ 7
           {| frame := 7; timeMs := inject_Z (Z.of_nat 7) * 33 |});
    reflexivity.
Defined.

(** X26.  A seek does not touch the virtual clock.  Seeking back while the
    replay plays is therefore undone by the next callback: if the frames
    between the sought index and the current one are all stamped at or
    before the virtual timestamp of that callback, the callback leaves the
    very state it would have left without the seek. *)
Theorem seek_back_undone e s l k now :
  running e s -> replayPausedRef s = false -> replayRafRef s = Some l ->
  k <= replayIdxRef s ->
  (forall j f, k <= j < replayIdxRef s -> nth_error (stored e) j = Some f ->
     (timeMs f <= nextVirtualTime l now)%Q) ->
  step e (step e s (Seek k)) (Tick now) = step e s (Tick now).
Proof.
  intros (Hr & Hs & Hidx) Hp Hl Hk Hpast.
  cbn [step].
  change (replayRafRef (handleSeek e k s)) with (replayRafRef s). rewrite Hl.
  unfold loop.
  change (replayPausedRef (handleSeek e k s)) with (replayPausedRef s).
  change (replayIdxRef (handleSeek e k s)) with k.
  change (isReplaying (handleSeek e k s)) with (isReplaying s).
  change (replayPaused (handleSeek e k s)) with (replayPaused s).
  change (replaySpeed (handleSeek e k s)) with (replaySpeed s).
  rewrite Hp.
  destruct (Nat.leb_spec (length (stored e)) k) as [H | _]; [lia |].
  destruct (Nat.leb_spec (length (stored e)) (replayIdxRef s)) as [H | _]; [lia |].
  cbv zeta. unfold nextVirtualTime in Hpast.
  rewrite (advance_skip (stored e) _ k (replayIdxRef s) Hk Hidx Hpast).
  match goal with
  | |- context [advance (stored e) ?lft (replayIdxRef s)] =>
      pose proof (advance_lt (stored e) lft _ Hidx) as Hlt
  end.
  destruct (nth_error (stored e) (advance _ _ _)) as [f |] eqn:Ef.
  - reflexivity.
  - apply nth_error_None in Ef. lia.
Qed.

Lemma seek_back_undone_witness :
  step (evenly 11 33)
    (step (evenly 11 33)
       (run (evenly 11 33) initial [Play; Tick 0; Tick 200]) (Seek 2))
    (Tick 216)
  = step (evenly 11 33)
      (run (evenly 11 33) initial [Play; Tick 0; Tick 200]) (Tick 216).
Proof.
  apply (seek_back_undone (evenly 11 33) _
           {| speed := 1; lastRealTime := Some 200%Q;
              lastFrameTime := 0 + (0 - 0) * 1 + (200 - 0) * 1 |}).
  - unfold running. repeat split; vm_compute; try reflexivity. lia.
  - reflexivity.
  - reflexivity.
  - vm_compute. lia.
  - intros j f Hj Hf.
    assert (Hj' : j < 7) by (vm_compute in Hj; lia).
    do 7 (destruct j as [| j];
          [injection Hf as <-; vm_compute; discriminate |]).
    lia.
Defined.

(** X27.  Seeking ahead while the replay plays holds the picture: as long as the
    sought frame is stamped after the virtual timestamp, callbacks leave
    the index on it. *)
Theorem seek_forward_waits e s l k f now :
  running e s -> replayPausedRef s = false -> replayRafRef s = Some l ->
  nth_error (stored e) k = Some f ->
  (nextVirtualTime l now < timeMs f)%Q ->
  replayIdxRef (step e (step e s (Seek k)) (Tick now)) = k
  /\ drawn (step e (step e s (Seek k)) (Tick now)) = Some k
  /\ scheduled (step e (step e s (Seek k)) (Tick now)) = true.
Proof.
  intros (Hr & Hs & Hidx) Hp Hl Hf Hlate.
  assert (Hk : k < length (stored e))
    by (apply nth_error_Some; rewrite Hf; discriminate).
  cbn [step].
  change (replayRafRef (handleSeek e k s)) with (replayRafRef s). rewrite Hl.
  unfold loop.
  change (replayPausedRef (handleSeek e k s)) with (replayPausedRef s).
  change (replayIdxRef (handleSeek e k s)) with k.
  change (isReplaying (handleSeek e k s)) with (isReplaying s).
  change (replayPaused (handleSeek e k s)) with (replayPaused s).
  change (replaySpeed (handleSeek e k s)) with (replaySpeed s).
  rewrite Hp.
  destruct (Nat.leb_spec (length (stored e)) k) as [H | _]; [lia |].
  cbv zeta. unfold nextVirtualTime in Hlate.
  rewrite advance_halt.
  - rewrite Hf. cbn. repeat split; reflexivity.
  - unfold loopCond. rewrite Hf, ScorerFacts.Qle_bool_false by exact Hlate.
    apply andb_false_r.
Qed.

Lemma seek_forward_waits_witness :
  replayIdxRef
    (step (evenly 11 33)
       (step (evenly 11 33)
          (run (evenly 11 33) initial [Play; Tick 0; Tick 16]) (Seek 9))
       (Tick 32)) = 9.
Proof.
  apply (seek_forward_waits (evenly 11 33) _
           {| speed := 1; lastRealTime := Some 16%Q;
              lastFrameTime := 0 + (0 - 0) * 1 + (16 - 0) * 1 |}
           9 {| frame := 9; timeMs := inject_Z (Z.of_nat 9) * 33 |}).
  - unfold running. repeat split; vm_compute; try reflexivity. lia.
  - reflexivity.
  - reflexivity.
  - reflexivity.
  - vm_compute. reflexivity.
Defined.

(** *** What every reachable state satisfies *)

Lemma step_keeps_in_buffer e s ev :
  canvas e = true -> video e = true -> ctx e = true ->
  inRange e ev ->
  replayIdxRef s < length (stored e) /\ scheduled s = isReplaying s ->
  replayIdxRef (step e s ev) < length (stored e)
  /\ scheduled (step e s ev) = isReplaying (step e s ev).
Proof.
  intros Hc Hv Hx Hev [Hidx Hsch]. unfold scheduled in *.
  assert (Hlen : (length (stored e) =? 0) = false) by (apply Nat.eqb_neq; lia).
  destruct ev; cbn [step]; unfold seekbarDown, setSpeed.
  1-6: try destruct (isReplaying s) eqn:Hr;
       unfold startReplay, stopReplay, toggleReplayPause, handleSeek;
       rewrite ?Hc, ?Hv, ?Hx, ?Hlen; cbn;
       (split; [first [assumption | lia]
               | first [assumption | reflexivity | congruence]]).
  - destruct (replayRafRef s) as [l |] eqn:El; [| rewrite El; split; assumption].
    unfold loop. destruct (replayPausedRef s); [rewrite El; split; assumption |].
    destruct (Nat.leb_spec (length (stored e)) (replayIdxRef s)) as [H | _]; [lia |].
    match goal with
    | |- context [advance (stored e) ?lft (replayIdxRef s)] =>
        pose proof (advance_lt (stored e) lft _ Hidx) as Hlt
    end.
    cbv zeta in *.
    destruct (nth_error (stored e) _) as [f |] eqn:Ef.
    + cbn. split; [exact Hlt | exact Hsch].
    + apply nth_error_None in Ef. lia.
Qed.

(** X28.  With the page in place and a capture that is not empty, whatever the
    user does with the controls (the seek bar staying inside the buffer)
    and whenever callbacks run, the index stays inside the buffer and a
    callback is pending exactly while the component says it is replaying:
    the callback never meets a missing frame and never stops the replay by
    itself. *)
Theorem replay_stays_in_buffer e (evs : list Event) :
  canvas e = true -> video e = true -> ctx e = true -> stored e <> [] ->
  Forall (inRange e) evs ->
  replayIdxRef (run e initial evs) < length (stored e)
  /\ scheduled (run e initial evs) = isReplaying (run e initial evs).
Proof.
  intros Hc Hv Hx Hne Hall.
  assert (H0 : replayIdxRef initial < length (stored e)
               /\ scheduled initial = isReplaying initial).
  { split; [| reflexivity]. cbn. destruct (stored e); [contradiction | cbn; lia]. }
  revert H0. generalize initial as s.
  induction Hall as [| ev evs Hev _ IH]; intros s Hs; [exact Hs |].
  cbn [run fold_left]. apply IH.
  apply step_keeps_in_buffer; assumption.
Qed.

Lemma replay_stays_in_buffer_witness :
  replayIdxRef
    (run (evenly 11 33) initial
       [Play; Tick 0; Seek 10; Tick 16; Speed 2; Tick 5000; Pause; Seek 3])
  < 11.
Proof.
  apply (replay_stays_in_buffer (evenly 11 33));
    try reflexivity; [discriminate |].
  repeat constructor; cbn; lia.
Defined.

(** *** Starting from the seek bar *)

Lemma run_app e s (evs1 evs2 : list Event) :
  run e s (evs1 ++ evs2) = run e (run e s evs1) evs2.
Proof. apply fold_left_app. Qed.

(** X29.  A replay started by pressing the seek bar starts paused.  However
    long it stays so, the first callback after it is resumed measures no
    elapsed time: the virtual timestamp is the stamp of frame 0. *)
Theorem scrub_start_measures_afresh e s (times : list Q) now :
  canvas e = true -> video e = true -> ctx e = true -> stored e <> [] ->
  isReplaying s = false ->
  let s1 := run e s (SeekbarDown :: map Tick times) in
  replayPausedRef s1 = true /\ isReplaying s1 = true /\ replayIdxRef s1 = 0
  /\ exists l,
       replayRafRef (run e s1 [Pause; Tick now]) = Some l
       /\ lastRealTime l = Some now
       /\ (lastFrameTime l == anchor (stored e) 0)%Q.
Proof.
  intros Hc Hv Hx Hne Hr. cbv zeta. cbn [run fold_left].
  change (fold_left (step e) (map Tick times) (step e s SeekbarDown))
    with (run e (step e s SeekbarDown) (map Tick times)).
  assert (E : step e s SeekbarDown
              = {| isReplaying := true; replayPaused := true;
                   replaySpeed := replaySpeed s; replayFrame := replayFrame s;
                   replayIdxRef := 0; replayPausedRef := true;
                   replayRafRef :=
                     Some {| speed := replaySpeed s; lastRealTime := None;
                             lastFrameTime := anchor (stored e) 0 |};
                   currentTime := currentTime s; drawn := drawn s |}).
  { cbn. unfold seekbarDown, startReplay. rewrite Hr, Hc, Hv, Hx.
    destruct (stored e); [contradiction | reflexivity]. }
  rewrite E, paused_ticks_noop by reflexivity.
  cbn [replayPausedRef isReplaying replayIdxRef].
  do 3 (split; [reflexivity |]).
  match goal with
  | |- context [step e ?s1 Pause] =>
      assert (Hrun : running e (step e s1 Pause));
      [ unfold running, scheduled; cbn; repeat split;
        destruct (stored e); [contradiction | cbn; lia]
      | pose proof (tick_clock e (step e s1 Pause) _ now Hrun eq_refl eq_refl)
          as Hl ]
  end.
  rewrite Hl. eexists. split; [reflexivity |]. split; [reflexivity |].
  unfold nextVirtualTime. cbn [lastFrameTime lastRealTime speed]. ring.
Qed.

Lemma scrub_start_measures_afresh_witness :
  replayPausedRef
    (run (evenly 11 33) initial (SeekbarDown :: map Tick [16%Q; 9000%Q]))
  = true.
Proof.
  apply (scrub_start_measures_afresh (evenly 11 33) initial
           [16%Q; 9000%Q] 9016); try reflexivity. discriminate.
Defined.

End ReplayFacts.
